(** * Bill lifecycle orchestrator: aggregate, event loop, charge resolution, ledger

    A shallow embedding of the billing service (package [billing]: the [Bill]
    aggregate of billing.go, the [BillWorkflow] orchestrator and its
    activities) and of the account ledger (package [account]: [AddBalance],
    [Withdraw]).

    [BillWorkflow] is embedded in the revision that credits the account when
    a bill settles ([BillWorkflow(ctx, billID, cur, periodEnd)], with
    [Bill{ID, Status, Currency, Items, Total}]).  The earlier revision, which
    takes an account identifier and keeps [Bill{Status, Items, Total}], is the
    same function without the [CreditAccountActivity] call in the settled
    branch; the methods of [Bill] are the same in both.

    Go's [int64] is modelled as [Z] with two's complement wrap-around written
    out; the string-typed enums [LineItemStatus] and [BillStatus] stay strings,
    so that values outside the named constants (a signal payload may carry any
    string) are covered; slices are lists, updated in place by index; the
    ledger's map is a [gmap]. *)

From Stdlib Require Import ZArith Lia Ascii.
From stdpp Require Import base tactics option list strings gmap pretty.

Local Open Scope Z_scope.

(** ** Machine integers *)

Definition int64_min : Z := - 2 ^ 63.
Definition int64_max : Z := 2 ^ 63 - 1.

Definition in_int64 (z : Z) : Prop := int64_min <= z <= int64_max.

(** Reduction of a mathematical integer to the value an [int64] holds. *)
Definition wrap64 (z : Z) : Z := (z + 2 ^ 63) mod 2 ^ 64 - 2 ^ 63.

Definition add64 (x y : Z) : Z := wrap64 (x + y).
Definition sub64 (x y : Z) : Z := wrap64 (x - y).

(** ** Data model (billing.go) *)

Definition LineItemStatus := string.
Definition BillStatus := string.

Definition ItemPending : LineItemStatus := "PENDING".
Definition ItemCharged : LineItemStatus := "CHARGED".
Definition ItemFailed : LineItemStatus := "FAILED".
Definition ItemCanceled : LineItemStatus := "CANCELED".
Definition ItemRefunded : LineItemStatus := "REFUNDED".

Definition BillOpen : BillStatus := "OPEN".
Definition BillCharging : BillStatus := "CHARGING".
Definition BillSettled : BillStatus := "SETTLED".
Definition BillCanceled : BillStatus := "CANCELED".
Definition BillExpired : BillStatus := "EXPIRED".
Definition BillFailed : BillStatus := "FAILED".
Definition BillCompensated : BillStatus := "COMPENSATED".

(** [type Currency string] of internal/currency. *)
Definition Currency := string.
Definition USD : Currency := "USD".
Definition EUR : Currency := "EUR".
Definition GEL : Currency := "GEL".

Module LineItem.

Record t : Type := mk {
  ID : string;
  Name : string;
  Amount : Z;
  Status : LineItemStatus
}.

Definition with_status (it : t) (st : LineItemStatus) : t :=
  {| ID := ID it; Name := Name it; Amount := Amount it; Status := st |}.

End LineItem.

(** [Bill], with the [ID] and [Currency] fields of the revision whose
    workflow credits the account; [Cur] is the field [Currency]. *)
Module Bill.

Record t : Type := mk {
  ID : string;
  Status : BillStatus;
  Cur : Currency;
  Items : list LineItem.t;
  Total : Z
}.

Definition with_status (b : t) (st : BillStatus) : t :=
  {| ID := ID b; Status := st; Cur := Cur b; Items := Items b; Total := Total b |}.

Definition with_items (b : t) (items : list LineItem.t) : t :=
  {| ID := ID b; Status := Status b; Cur := Cur b; Items := items; Total := Total b |}.

End Bill.

(** The package-level error values of billing.go. *)
Inductive BillError : Type :=
  | ErrBillNotOpen
  | ErrCannotCancel
  | ErrNoPendingItems
  | ErrDuplicateItem (id : string).

Definition BillError_message (e : BillError) : string :=
  match e with
  | ErrBillNotOpen => "bill is not open"
  | ErrCannotCancel => "cannot cancel bill in current state"
  | ErrNoPendingItems => "no pending items to charge"
  | ErrDuplicateItem id => "item " +:+ id +:+ " already exists"
  end.

(** ** The aggregate's methods

    A method on [*Bill] that returns [error] becomes a function from the bill
    to the bill after the call paired with the error ([None] is [nil]). *)

(** The duplicate scan of [AddItem]: [for _, it := range b.Items] with its
    early return. *)
Fixpoint has_item_id (id : string) (items : list LineItem.t) : bool :=
  match items with
  | [] => false
  | it :: rest => if String.eqb (LineItem.ID it) id then true else has_item_id id rest
  end.

Definition AddItem (b : Bill.t) (li : LineItem.t) : Bill.t * option BillError :=
  if negb (String.eqb (Bill.Status b) BillOpen) then (b, Some ErrBillNotOpen)
  else if has_item_id (LineItem.ID li) (Bill.Items b)
  then (b, Some (ErrDuplicateItem (LineItem.ID li)))
  else
    let li := LineItem.with_status li ItemPending in
    ({| Bill.ID := Bill.ID b;
        Bill.Status := Bill.Status b;
        Bill.Cur := Bill.Cur b;
        Bill.Items := Bill.Items b ++ [li];
        Bill.Total := add64 (Bill.Total b) (LineItem.Amount li) |}, None).

(** [PendingCount]: the counter is bounded by the length of the slice, so it
    never wraps and is kept as a [nat]. *)
Fixpoint count_status (st : LineItemStatus) (items : list LineItem.t) : nat :=
  match items with
  | [] => O
  | it :: rest =>
      if String.eqb (LineItem.Status it) st
      then S (count_status st rest) else count_status st rest
  end.

Definition PendingCount (b : Bill.t) : nat := count_status ItemPending (Bill.Items b).

Definition BeginCharge (b : Bill.t) : Bill.t * option BillError :=
  if negb (String.eqb (Bill.Status b) BillOpen) then (b, Some ErrBillNotOpen)
  else if Nat.eqb (PendingCount b) 0 then (b, Some ErrNoPendingItems)
  else (Bill.with_status b BillCharging, None).

(** [b.Items[i].Status = st], for an index the loops below keep in range. *)
Definition set_item_status (i : nat) (st : LineItemStatus)
    (items : list LineItem.t) : list LineItem.t :=
  match items !! i with
  | Some it => <[i := LineItem.with_status it st]> items
  | None => items
  end.

(** One iteration of the loop shared by [Cancel] and [Expire]. *)
Definition cancel_at (i : nat) (items : list LineItem.t) : list LineItem.t :=
  match items !! i with
  | Some it =>
      if String.eqb (LineItem.Status it) ItemPending
      then set_item_status i ItemCanceled items else items
  | None => items
  end.

(** [for i := range b.Items { ... }]: the bound is read once, the body runs
    for 0, 1, ..., len-1. *)
Definition for_range {S : Type} (n : nat) (body : nat -> S -> S) (s : S) : S :=
  fold_left (fun acc i => body i acc) (seq 0 n) s.

Definition cancel_pending (items : list LineItem.t) : list LineItem.t :=
  for_range (length items) cancel_at items.

Definition Cancel (b : Bill.t) : Bill.t * option BillError :=
  if negb (String.eqb (Bill.Status b) BillOpen) then (b, Some ErrCannotCancel)
  else
    let b1 := Bill.with_status b BillCanceled in
    (Bill.with_items b1 (cancel_pending (Bill.Items b1)), None).

Definition Expire (b : Bill.t) : Bill.t :=
  let b1 := Bill.with_status b BillExpired in
  Bill.with_items b1 (cancel_pending (Bill.Items b1)).

(** ** The event loop of [BillWorkflow]

    While the bill is Open the workflow blocks in [selector.Select], which
    runs the callback of exactly one ready source.  Which source is ready is
    up to the environment, so an execution is driven by a list of stimuli.
    The environment is not constrained: it may report the timer future ready
    at any point, also after [cancelTimer]. *)

Inductive Stimulus : Type :=
  | SigAddLineItem (li : LineItem.t)
  | SigChargeBill
  | SigCancelBill
  | TimerReady.

(** The calls the loop's callbacks make, in program order. *)
Inductive Call : Type :=
  | CallAddItem (li : LineItem.t)
  | CallBeginCharge
  | CallCancel
  | CallExpire
  | CallCancelTimer.

Record LoopState : Type := mkLoop {
  bill : Bill.t;
  timer_canceled : bool;
  calls : list Call
}.

(** [bill := &Bill{ID: billID, Status: BillOpen, Currency: cur}] and a freshly
    armed timer. *)
Definition new_bill (billID : string) (cur : Currency) : Bill.t :=
  {| Bill.ID := billID; Bill.Status := BillOpen; Bill.Cur := cur;
     Bill.Items := []; Bill.Total := 0 |}.

Definition loop_init (billID : string) (cur : Currency) : LoopState :=
  {| bill := new_bill billID cur; timer_canceled := false; calls := [] |}.

(** The callback registered with [AddReceive(addCh, ...)]: a rejected item is
    logged and dropped. *)
Definition on_add (li : LineItem.t) (s : LoopState) : LoopState :=
  let '(b, _) := AddItem (bill s) li in
  {| bill := b; timer_canceled := timer_canceled s;
     calls := calls s ++ [CallAddItem li] |}.

(** The callback of [chargeCh]: [cancelTimer()] runs only when [BeginCharge]
    returned nil. *)
Definition on_charge (s : LoopState) : LoopState :=
  match BeginCharge (bill s) with
  | (b, Some _) =>
      {| bill := b; timer_canceled := timer_canceled s;
         calls := calls s ++ [CallBeginCharge] |}
  | (b, None) =>
      {| bill := b; timer_canceled := true;
         calls := calls s ++ [CallBeginCharge; CallCancelTimer] |}
  end.

(** The callback of [cancelCh]. *)
Definition on_cancel (s : LoopState) : LoopState :=
  match Cancel (bill s) with
  | (b, Some _) =>
      {| bill := b; timer_canceled := timer_canceled s;
         calls := calls s ++ [CallCancel] |}
  | (b, None) =>
      {| bill := b; timer_canceled := true;
         calls := calls s ++ [CallCancel; CallCancelTimer] |}
  end.

(** The callback registered with [AddFuture(timer, ...)]: it does not look at
    the future's result. *)
Definition on_timer (s : LoopState) : LoopState :=
  {| bill := Expire (bill s); timer_canceled := timer_canceled s;
     calls := calls s ++ [CallExpire] |}.

(** One [selector.Select(ctx)]. *)
Definition select (ev : Stimulus) (s : LoopState) : LoopState :=
  match ev with
  | SigAddLineItem li => on_add li s
  | SigChargeBill => on_charge s
  | SigCancelBill => on_cancel s
  | TimerReady => on_timer s
  end.

(** [for bill.Status == BillOpen { ...; selector.Select(ctx) }].  When the
    stimuli run out with the bill still Open the workflow stays blocked in
    [Select]; the state reached so far is returned. *)
Fixpoint event_loop (evs : list Stimulus) (s : LoopState) : LoopState :=
  match evs with
  | [] => s
  | ev :: rest =>
      if String.eqb (Bill.Status (bill s)) BillOpen
      then event_loop rest (select ev s)
      else s
  end.

(** ** Activities and the fan-out barrier *)

(** An activity the workflow hands to the executor. *)
Inductive Activity : Type :=
  | ExecCharge (li : LineItem.t)
  | ExecRefund (li : LineItem.t)
  | ExecCredit (amount : Z) (cur : Currency).

(** What [ExecuteActivity(...).Get(c, nil)] returns once the executor has
    applied the retry policy of the activity options (initial interval 3s,
    coefficient 2.0, maximum interval 1m, at most 5 attempts): [true] stands
    for a non-nil error.  The launching index is passed along with the
    activity's argument. *)
Record Executor : Type := mkExecutor {
  charge_err : nat -> LineItem.t -> bool;
  refund_err : nat -> LineItem.t -> bool;
  credit_err : Z -> Currency -> bool
}.

(** [ChargeLineItemActivity] of activities.go: the mocked failure. *)
Definition ChargeLineItemActivity (li : LineItem.t) : bool :=
  String.eqb (LineItem.Name li) "FAIL".

(** [RefundLineItemActivity]: always nil. *)
Definition RefundLineItemActivity (li : LineItem.t) : bool := false.

(** A coroutine launched with [workflow.Go]: the index [i] of
    [item := &bill.Items[i]] and the value [*item] it passes to the activity. *)
Definition Task : Type := nat * LineItem.t.

(** The launching loops: one task per item whose status is [st], in index
    order. *)
Fixpoint launch_from (k : nat) (st : LineItemStatus) (items : list LineItem.t) : list Task :=
  match items with
  | [] => []
  | it :: rest =>
      if String.eqb (LineItem.Status it) st
      then (k, it) :: launch_from (S k) st rest
      else launch_from (S k) st rest
  end.

Definition launch (st : LineItemStatus) (items : list LineItem.t) : list Task :=
  launch_from 0 st items.

(** The order in which blocked coroutines are resumed is the executor's
    choice: given the indices still in flight, a scheduler names the position
    of the one that completes next. *)
Definition Scheduler : Type := list nat -> nat.

(** [wg.Wait(ctx)]: the barrier returns when every launched coroutine has run
    its completion code; [n] bounds the number of completions by the number
    of launched tasks. *)
Fixpoint join {S : Type} (n : nat) (sched : Scheduler) (inflight : list Task)
    (complete : Task -> S -> S) (s : S) : S :=
  match n with
  | O => s
  | Datatypes.S n' =>
      let k := (sched (map fst inflight) mod length inflight)%nat in
      match inflight !! k with
      | Some t => join n' sched (delete k inflight) complete (complete t s)
      | None => s
      end
  end.

Definition wait {S : Type} (sched : Scheduler) (tasks : list Task)
    (complete : Task -> S -> S) (s : S) : S :=
  join (length tasks) sched tasks complete s.

(** Completion code of a charge coroutine. *)
Definition charge_complete (ex : Executor) (t : Task) (items : list LineItem.t)
    : list LineItem.t :=
  if charge_err ex (fst t) (snd t)
  then set_item_status (fst t) ItemFailed items
  else set_item_status (fst t) ItemCharged items.

(** Step 1 of the Charging branch: charge all pending items and wait. *)
Definition charge_all (ex : Executor) (sched : Scheduler) (items : list LineItem.t)
    : list LineItem.t :=
  wait sched (launch ItemPending items) (charge_complete ex) items.

(** Completion code of a refund coroutine: the activity's error is dropped,
    the item becomes Refunded and [refundedCount] is incremented. *)
Definition refund_complete (ex : Executor) (t : Task) (s : list LineItem.t * nat)
    : list LineItem.t * nat :=
  let _ := refund_err ex (fst t) (snd t) in
  (set_item_status (fst t) ItemRefunded (fst s), S (snd s)).

Definition refund_all (ex : Executor) (sched : Scheduler) (items : list LineItem.t)
    : list LineItem.t * nat :=
  wait sched (launch ItemCharged items) (refund_complete ex) (items, O).

(** ** Resolution *)

(** [temporal.NewApplicationError(message, errType, details...)] and
    [temporal.NewNonRetryableApplicationError]. *)
Record ApplicationError : Type := mkAppError {
  err_message : string;
  err_type : string;
  err_non_retryable : bool;
  err_details : list string
}.

(** [fmt.Sprintf] with the verb [%v] on a [[]string]. *)
Definition sprint_ids (ids : list string) : string :=
  "[" +:+ String.concat " " ids +:+ "]".

(** What a run of the workflow body leaves behind: the bill the query handler
    reports from then on, the returned error, and the activities handed to the
    executor in the order they were scheduled. *)
Record Outcome : Type := mkOutcome {
  final : Bill.t;
  result : option ApplicationError;
  activities : list Activity
}.

(** The second loop of the partial-failure branch:
    [if it.Status == ItemFailed { failedIDs = append(failedIDs, it.ID) }]. *)
Fixpoint failed_ids (items : list LineItem.t) : list string :=
  match items with
  | [] => []
  | it :: rest =>
      if String.eqb (LineItem.Status it) ItemFailed
      then LineItem.ID it :: failed_ids rest
      else failed_ids rest
  end.

(** The [case BillCharging:] arm of [switch bill.Status]. *)
Definition charging (ex : Executor) (sched : Scheduler) (b : Bill.t) : Outcome :=
  (* 1) charge all pending items *)
  let charges := map (fun t : Task => ExecCharge (snd t)) (launch ItemPending (Bill.Items b)) in
  let b := Bill.with_items b (charge_all ex sched (Bill.Items b)) in
  (* 2) count failures *)
  let failedCount := count_status ItemFailed (Bill.Items b) in
  let totalItems := length (Bill.Items b) in
  (* 3) branch on result *)
  if Nat.eqb failedCount totalItems then
    let failedIDs := map LineItem.ID (Bill.Items b) in
    let b := Bill.with_status b BillFailed in
    {| final := b;
       result := Some {| err_message := pretty failedCount +:+ " items failed: " +:+ sprint_ids failedIDs;
                         err_type := "ChargeFailed";
                         err_non_retryable := false;
                         err_details := failedIDs |};
       activities := charges |}
  else if Nat.eqb failedCount 0 then
    let b := Bill.with_status b BillSettled in
    let _ := credit_err ex (Bill.Total b) (Bill.Cur b) in
    {| final := b;
       result := None;
       activities := charges ++ [ExecCredit (Bill.Total b) (Bill.Cur b)] |}
  else
    let refunds := map (fun t : Task => ExecRefund (snd t)) (launch ItemCharged (Bill.Items b)) in
    let '(items, refundedCount) := refund_all ex sched (Bill.Items b) in
    let b := Bill.with_items b items in
    let b := Bill.with_status b BillCompensated in
    let failedIDs := failed_ids (Bill.Items b) in
    {| final := b;
       result := Some {| err_message := "refunded " +:+ pretty refundedCount +:+ " items after "
                                          +:+ pretty failedCount +:+ " failures";
                         err_type := "ChargeCompensated";
                         err_non_retryable := false;
                         err_details := failedIDs |};
       activities := charges ++ refunds |}.

(** [switch bill.Status { ... }] after the loop. *)
Definition after_loop (ex : Executor) (sched : Scheduler) (b : Bill.t) : Outcome :=
  if String.eqb (Bill.Status b) BillCanceled || String.eqb (Bill.Status b) BillExpired then
    {| final := b; result := None; activities := [] |}
  else if String.eqb (Bill.Status b) BillCharging then charging ex sched b
  else
    {| final := b;
       result := Some {| err_message := "invalid state"; err_type := EmptyString;
                         err_non_retryable := true; err_details := [] |};
       activities := [] |}.

(** A run of [BillWorkflow] on a finite prefix of stimuli. *)
Inductive Run : Type :=
  | RegistrationFailed (e : string)
  | Blocked (s : LoopState)
  | Finished (s : LoopState) (o : Outcome).

(** [BillWorkflow(ctx, billID, cur, periodEnd)].  [reg] is what
    [workflow.SetQueryHandler] returned; the deadline enters through the
    [TimerReady] stimulus. *)
Definition BillWorkflow (billID : string) (cur : Currency) (reg : option string)
    (evs : list Stimulus) (ex : Executor) (sched : Scheduler) : Run :=
  match reg with
  | Some e => RegistrationFailed e
  | None =>
      let s := event_loop evs (loop_init billID cur) in
      if String.eqb (Bill.Status (bill s)) BillOpen then Blocked s
      else Finished s (after_loop ex sched (bill s))
  end.

(** The query handler: a copy of the items slice next to the scalar fields. *)
Definition QueryBill (b : Bill.t) : Bill.t :=
  {| Bill.ID := Bill.ID b; Bill.Status := Bill.Status b; Bill.Cur := Bill.Cur b;
     Bill.Total := Bill.Total b; Bill.Items := [] ++ Bill.Items b |}.

(** ** Histories of one bill

    Every write to a bill in the package: the four mutating methods, and the
    direct assignments [item.Status = ...] and [bill.Status = ...] of the
    workflow's charge, refund and resolution steps. *)

Inductive BillOp : Type :=
  | OpAddItem (li : LineItem.t)
  | OpBeginCharge
  | OpCancel
  | OpExpire
  | OpSetItemStatus (i : nat) (st : LineItemStatus)
  | OpSetStatus (st : BillStatus).

Definition apply_op (op : BillOp) (b : Bill.t) : Bill.t :=
  match op with
  | OpAddItem li => fst (AddItem b li)
  | OpBeginCharge => fst (BeginCharge b)
  | OpCancel => fst (Cancel b)
  | OpExpire => Expire b
  | OpSetItemStatus i st => Bill.with_items b (set_item_status i st (Bill.Items b))
  | OpSetStatus st => Bill.with_status b st
  end.

Definition run_ops (ops : list BillOp) (b : Bill.t) : Bill.t :=
  fold_left (fun acc op => apply_op op acc) ops b.

(** The amounts of the items for which [AddItem] returned nil, oldest first. *)
Fixpoint accepted_amounts (ops : list BillOp) (b : Bill.t) : list Z :=
  match ops with
  | [] => []
  | op :: rest =>
      match op with
      | OpAddItem li =>
          match snd (AddItem b li) with
          | None => LineItem.Amount li :: accepted_amounts rest (apply_op op b)
          | Some _ => accepted_amounts rest (apply_op op b)
          end
      | _ => accepted_amounts rest (apply_op op b)
      end
  end.

Definition sumZ (l : list Z) : Z := fold_right Z.add 0 l.

(** ** The account ledger (account/handler.go)

    [balances] is a map from currency to [int64], read and written under the
    mutex [mu]; a handler is one atomic transition of the map.  Reading a
    missing key yields zero. *)

Inductive ErrCode : Type :=
  | InvalidArgument
  | FailedPrecondition.

Record ErrsError : Type := mkErrs {
  Code : ErrCode;
  Message : string
}.

Definition balance (balances : gmap Currency Z) (cur : Currency) : Z :=
  default 0 (balances !! cur).

(** [currency.Parse]; [ToUpper] stands for Go's [strings.ToUpper]. *)
Definition Parse (ToUpper : string -> string) (raw : string) : Currency * option string :=
  let s := ToUpper raw in
  if String.eqb s USD || String.eqb s EUR || String.eqb s GEL
  then (s, None)
  else (EmptyString, Some ("unsupported currency '" +:+ raw +:+ "'")).

Definition AddBalance (balances : gmap Currency Z) (cur : Currency) (amount : Z)
    : gmap Currency Z * option ErrsError :=
  if Z.eqb amount 0
  then (balances, Some {| Code := InvalidArgument; Message := "amount cannot be zero" |})
  else (<[cur := add64 (balance balances cur) amount]> balances, None).

Definition Withdraw (ToUpper : string -> string) (balances : gmap Currency Z)
    (curr : string) (amount : Z) : gmap Currency Z * option ErrsError :=
  match Parse ToUpper curr with
  | (_, Some e) => (balances, Some {| Code := InvalidArgument; Message := e |})
  | (reqCur, None) =>
      if Z.leb amount 0
      then (balances, Some {| Code := InvalidArgument; Message := "amount must be > 0" |})
      else if Z.ltb (balance balances reqCur) amount
      then (balances, Some {| Code := FailedPrecondition; Message := "insufficient funds" |})
      else (<[reqCur := sub64 (balance balances reqCur) amount]> balances, None)
  end.

(** [CreditAccountActivity] of activities.go forwards to [account.AddBalance]. *)
Definition CreditAccountActivity (balances : gmap Currency Z) (amount : Z) (cur : Currency)
    : gmap Currency Z * option ErrsError :=
  AddBalance balances cur amount.

(** ASCII upper-casing, the restriction of [strings.ToUpper] to ASCII input,
    used to run [Parse] on examples. *)
Definition ascii_upper (c : ascii) : ascii :=
  let n := nat_of_ascii c in
  if (Nat.leb 97 n && Nat.leb n 122)%bool then ascii_of_nat (n - 32) else c.

Fixpoint upper_ascii (s : string) : string :=
  match s with
  | EmptyString => EmptyString
  | String c rest => String (ascii_upper c) (upper_ascii rest)
  end.

(** What the loop of [Cancel] and [Expire] does to one item. *)
Definition cancel_item (it : LineItem.t) : LineItem.t :=
  if String.eqb (LineItem.Status it) ItemPending
  then LineItem.with_status it ItemCanceled else it.

(** A completion that writes one status into its own item. *)
Definition writes_status (f : Task -> LineItemStatus) (t : Task)
    (items : list LineItem.t) : list LineItem.t :=
  set_item_status (fst t) (f t) items.

(** The status a charge coroutine writes. *)
Definition charge_status (ex : Executor) (t : Task) : LineItemStatus :=
  if charge_err ex (fst t) (snd t) then ItemFailed else ItemCharged.

(** What the charge fan-out does to the item at index [i]. *)
Definition charged_item (ex : Executor) (i : nat) (it : LineItem.t) : LineItem.t :=
  if String.eqb (LineItem.Status it) ItemPending
  then LineItem.with_status it (charge_status ex (i, it)) else it.

(** What the refund fan-out does to one item. *)
Definition refunded_item (it : LineItem.t) : LineItem.t :=
  if String.eqb (LineItem.Status it) ItemCharged
  then LineItem.with_status it ItemRefunded else it.

(** The states the event loop can be in, with what each one records about
    the timer and about the calls made so far. *)
Definition all_pending (items : list LineItem.t) : Prop :=
  Forall (fun it => LineItem.Status it = ItemPending) items.

Definition loop_inv (s : LoopState) : Prop :=
  (Bill.Status (bill s) = BillOpen /\ all_pending (Bill.Items (bill s)) /\
   timer_canceled s = false /\
   (CallExpire ∉ calls s) /\ (CallCancelTimer ∉ calls s))
  \/
  (Bill.Status (bill s) = BillCharging /\ all_pending (Bill.Items (bill s)) /\
   Bill.Items (bill s) <> [] /\ timer_canceled s = true /\
   exists pre, calls s = pre ++ [CallBeginCharge; CallCancelTimer] /\
               (CallExpire ∉ pre) /\ (CallCancelTimer ∉ pre))
  \/
  (Bill.Status (bill s) = BillCanceled /\ timer_canceled s = true /\
   exists pre, calls s = pre ++ [CallCancel; CallCancelTimer] /\
               (CallExpire ∉ pre) /\ (CallCancelTimer ∉ pre))
  \/
  (Bill.Status (bill s) = BillExpired /\ timer_canceled s = false /\
   exists pre, calls s = pre ++ [CallExpire] /\
               (CallExpire ∉ pre) /\ (CallCancelTimer ∉ pre)).

(** The balances are [int64] values. *)
Definition int64_ledger (balances : gmap Currency Z) : Prop :=
  forall cur, in_int64 (balance balances cur).

(** A sequence of [Withdraw] requests (path parameter, amount), served one
    after the other under the mutex. *)
Definition withdraw_all (ToUpper : string -> string) (reqs : list (string * Z))
    (balances : gmap Currency Z) : gmap Currency Z :=
  fold_left (fun m r => fst (Withdraw ToUpper m (fst r) (snd r))) reqs balances.

(** Sample items used by the examples. *)
Definition item (id name : string) (amount : Z) : LineItem.t :=
  {| LineItem.ID := id; LineItem.Name := name; LineItem.Amount := amount;
     LineItem.Status := EmptyString |}.

(** The executor of the test suite: the mocked activities of activities.go,
    with a ledger credit that succeeds. *)
Definition mock_executor : Executor :=
  {| charge_err := fun _ li => ChargeLineItemActivity li;
     refund_err := fun _ li => RefundLineItemActivity li;
     credit_err := fun _ _ => false |}.

(** Two schedulers: completions in launch order, and last launched first. *)
Definition fifo : Scheduler := fun _ => O.
Definition lifo : Scheduler := fun inflight => pred (length inflight).

(** The signal sequences of the workflow tests: a partial failure, a total
    failure and a clean charge. *)
Definition partial_evs : list Stimulus :=
  [SigAddLineItem (item "ok" "Book" 100); SigAddLineItem (item "bad" "FAIL" 50);
   SigChargeBill].

Definition all_fail_evs : list Stimulus :=
  [SigAddLineItem (item "a1" "FAIL" 100); SigAddLineItem (item "b2" "FAIL" 200);
   SigChargeBill].

Definition settled_evs : list Stimulus :=
  [SigAddLineItem (item "a1" "Book" 1500); SigAddLineItem (item "b2" "Pen" 500);
   SigChargeBill].

Definition loop_exit (evs : list Stimulus) : LoopState :=
  event_loop evs (loop_init "bill" USD).

(** What a test reads off a finished run: the bill's status and total, the
    items' identifiers and statuses, and the type and details of the error. *)
Definition observe (r : Run)
    : option (BillStatus * Z * list (string * LineItemStatus) * option (string * list string)) :=
  match r with
  | Finished _ o =>
      Some (Bill.Status (final o), Bill.Total (final o),
            map (fun it => (LineItem.ID it, LineItem.Status it)) (Bill.Items (final o)),
            option_map (fun e => (err_type e, err_details e)) (result o))
  | _ => None
  end.

(** ** Reading the ledger (account/handler.go, internal/currency) *)

Definition SupportedCurrencies : list Currency := [USD; EUR; GEL].

(** [GetBalances]: a fresh map with one entry per supported currency, read
    from [balances] under the mutex. *)
Definition GetBalances (balances : gmap Currency Z) : gmap Currency Z :=
  fold_left (fun out cur => <[cur := balance balances cur]> out) SupportedCurrencies ∅.

(** ** The request handlers of the billing service

    A handler talks to the workflow through the Temporal client.  What the
    client answers is the environment's part: the reply to [QueryWorkflow]
    followed by [qr.Get], and the error of [SignalWorkflow]. *)

Inductive QueryReply : Type :=
  | QueryFailed (e : string)
  | DecodeFailed (e : string)
  | Snapshot (b : Bill.t).

Module Service.

(** The codes of [errs.Error] the handlers use. *)
Inductive Code : Type :=
  | InvalidArgument
  | NotFound
  | FailedPrecondition
  | AlreadyExists
  | Internal.

(** The [error] a handler returns: an [*errs.Error], or the client's error
    passed on as it is. *)
Inductive Error : Type :=
  | Errs (code : Code) (message : string)
  | Raw (message : string).

Record AddItemRequest : Type := mkAddItemRequest {
  ID : string;
  Name : string;
  Amount : Z
}.

(** [AddItem(ctx, id, req)]: the returned error and the signal handed to
    [SignalWorkflow], if the handler got that far.  [TrimSpace] stands for
    Go's [strings.TrimSpace]; [signal_err] is what [SignalWorkflow] returns. *)
Definition AddItem (TrimSpace : string -> string) (req : AddItemRequest)
    (reply : QueryReply) (signal_err : option string) : option Error * option Stimulus :=
  if String.eqb (TrimSpace (ID req)) EmptyString then
    (Some (Errs InvalidArgument "'id' is required and must be non-empty"), None)
  else if Z.leb (Amount req) 0 then
    (Some (Errs InvalidArgument "'amount' must be greater than 0"), None)
  else if String.eqb (TrimSpace (Name req)) EmptyString then
    (Some (Errs InvalidArgument "'name' is required and must be non-empty"), None)
  else
    match reply with
    | QueryFailed _ => (Some (Errs NotFound "bill not found"), None)
    | DecodeFailed e => (Some (Raw e), None)
    | Snapshot snap =>
        if negb (String.eqb (Bill.Status snap) BillOpen) then
          (Some (Errs FailedPrecondition "bill not open"), None)
        else if has_item_id (ID req) (Bill.Items snap) then
          (Some (Errs AlreadyExists "item already exists in the bill"), None)
        else
          let li := {| LineItem.ID := ID req; LineItem.Name := Name req;
                       LineItem.Amount := Amount req; LineItem.Status := ItemPending |} in
          match signal_err with
          | Some e =>
              (Some (Errs Internal ("failed to signal billing workflow: " +:+ e)),
               Some (SigAddLineItem li))
          | None => (None, Some (SigAddLineItem li))
          end
    end.

(** The second query of [ChargeBill] and [CancelBill], whose result is
    returned to the caller. *)
Definition requery (reply2 : QueryReply) : option Bill.t * option Error :=
  match reply2 with
  | QueryFailed e => (None, Some (Errs Internal e))
  | DecodeFailed e => (None, Some (Errs Internal e))
  | Snapshot b => (Some b, None)
  end.

(** [ChargeBill(ctx, id)]: the returned bill and error, and the signal handed
    to [SignalWorkflow]. *)
Definition ChargeBill (reply : QueryReply) (signal_err : option string)
    (reply2 : QueryReply) : option Bill.t * option Error * option Stimulus :=
  match reply with
  | QueryFailed _ => (None, Some (Errs NotFound "bill not found"), None)
  | DecodeFailed e => (None, Some (Errs Internal e), None)
  | Snapshot summary =>
      if negb (String.eqb (Bill.Status summary) BillOpen) then
        (None,
         Some (Errs FailedPrecondition
                 ("cannot charge bill in status " +:+ Bill.Status summary)), None)
      else if Nat.eqb (PendingCount summary) 0 then
        (None,
         Some (Errs FailedPrecondition "cannot charge bill with no pending items"), None)
      else
        match signal_err with
        | Some e =>
            (None,
             Some (Errs Internal ("failed to signal workflow for charge: " +:+ e)),
             Some SigChargeBill)
        | None => (requery reply2, Some SigChargeBill)
        end
  end.

(** [CancelBill(ctx, id)]. *)
Definition CancelBill (reply : QueryReply) (signal_err : option string)
    (reply2 : QueryReply) : option Bill.t * option Error * option Stimulus :=
  match reply with
  | QueryFailed _ => (None, Some (Errs NotFound "bill not found"), None)
  | DecodeFailed e => (None, Some (Errs Internal e), None)
  | Snapshot b =>
      if negb (String.eqb (Bill.Status b) BillOpen) then
        (None,
         Some (Errs FailedPrecondition
                 ("cannot cancel bill in status " +:+ Bill.Status b)), None)
      else
        match signal_err with
        | Some e =>
            (None,
             Some (Errs Internal ("failed to signal workflow for cancel: " +:+ e)),
             Some SigCancelBill)
        | None => (requery reply2, Some SigCancelBill)
        end
  end.

End Service.

(** ** Vocabulary of the further properties *)

Definition all_status (st : LineItemStatus) (items : list LineItem.t) : Prop :=
  Forall (fun it => LineItem.Status it = st) items.

(** The part of an item no method and no workflow step writes. *)
Definition item_key (it : LineItem.t) : string * string * Z :=
  (LineItem.ID it, LineItem.Name it, LineItem.Amount it).

Definition unique_ids (items : list LineItem.t) : Prop :=
  NoDup (map LineItem.ID items).

(** The total is the [int64] sum of the amounts of the items held. *)
Definition total_ok (b : Bill.t) : Prop :=
  Bill.Total b = wrap64 (sumZ (map LineItem.Amount (Bill.Items b))).

(** ASCII white space, and the restriction of [strings.TrimSpace] to ASCII
    input, used to run the handlers on examples. *)
Definition is_space (c : ascii) : bool :=
  let n := nat_of_ascii c in
  (Nat.eqb n 32 || (Nat.leb 9 n && Nat.leb n 13))%bool.

Fixpoint trim_left (s : string) : string :=
  match s with
  | String c rest => if is_space c then trim_left rest else s
  | EmptyString => EmptyString
  end.

Fixpoint trim_right (s : string) : string :=
  match s with
  | EmptyString => EmptyString
  | String c rest =>
      match trim_right rest with
      | EmptyString => if is_space c then EmptyString else String c EmptyString
      | r => String c r
      end
  end.

Definition trim_ascii (s : string) : string := trim_right (trim_left s).

(** The write a stimulus makes to the bill when the loop selects it. *)
Definition stimulus_op (ev : Stimulus) : BillOp :=
  match ev with
  | SigAddLineItem li => OpAddItem li
  | SigChargeBill => OpBeginCharge
  | SigCancelBill => OpCancel
  | TimerReady => OpExpire
  end.

(** A signal the aggregate refuses on the bill [b]. *)
Definition refused (ev : Stimulus) (b : Bill.t) : Prop :=
  match ev with
  | SigAddLineItem li => has_item_id (LineItem.ID li) (Bill.Items b) = true
  | SigChargeBill => PendingCount b = O
  | _ => False
  end.

(** The identifiers, names and amounts of the items for which [AddItem]
    returned nil, oldest first. *)
Fixpoint accepted_keys (ops : list BillOp) (b : Bill.t) : list (string * string * Z) :=
  match ops with
  | [] => []
  | op :: rest =>
      match op with
      | OpAddItem li =>
          match snd (AddItem b li) with
          | None => item_key li :: accepted_keys rest (apply_op op b)
          | Some _ => accepted_keys rest (apply_op op b)
          end
      | _ => accepted_keys rest (apply_op op b)
      end
  end.

(** * Properties *)

(** ** Machine integers *)

Lemma wrap64_id (z : Z) : in_int64 z -> wrap64 z = z.
Proof.
  unfold in_int64, int64_min, int64_max, wrap64. intros Hz.
  rewrite Z.mod_small; lia.
Qed.

Lemma wrap64_range (z : Z) : in_int64 (wrap64 z).
Proof.
  unfold in_int64, int64_min, int64_max, wrap64.
  pose proof (Z.mod_pos_bound (z + 2 ^ 63) (2 ^ 64)). lia.
Qed.

Lemma wrap64_add_l (x y : Z) : wrap64 (wrap64 x + y) = wrap64 (x + y).
Proof.
  unfold wrap64.
  replace ((x + 2 ^ 63) mod 2 ^ 64 - 2 ^ 63 + y + 2 ^ 63)
    with ((x + 2 ^ 63) mod 2 ^ 64 + y) by lia.
  rewrite Zplus_mod_idemp_l. do 2 f_equal. lia.
Qed.

(** ** Scans over the items *)

Lemma has_item_id_true (id : string) (items : list LineItem.t) :
  has_item_id id items = true <->
  exists it, it ∈ items /\ LineItem.ID it = id.
Proof.
  induction items as [|a items IH]; simpl.
  - split; [discriminate|]. intros (it & Hin & _). inversion Hin.
  - destruct (String.eqb_spec (LineItem.ID a) id) as [Heq|Hne].
    + split; [|done]. intros _. exists a. split; [left|done].
    + rewrite IH. split.
      * intros (it & Hin & Hid). exists it. split; [by right|done].
      * intros (it & Hin & Hid). inversion Hin; subst; [done|]. by exists it.
Qed.

Lemma has_item_id_false (id : string) (items : list LineItem.t) :
  has_item_id id items = false <->
  forall it, it ∈ items -> LineItem.ID it <> id.
Proof.
  rewrite <- not_true_iff_false, has_item_id_true. split.
  - intros Hno it Hin Hid. apply Hno. by exists it.
  - intros Hall (it & Hin & Hid). by apply (Hall it).
Qed.

Lemma count_status_zero (st : LineItemStatus) (items : list LineItem.t) :
  count_status st items = O <->
  forall it, it ∈ items -> LineItem.Status it <> st.
Proof.
  induction items as [|a items IH]; simpl.
  - split; [|done]. intros _ it Hin. inversion Hin.
  - destruct (String.eqb_spec (LineItem.Status a) st) as [Heq|Hne].
    + split; [discriminate|]. intros Hall. exfalso. apply (Hall a); [left|done].
    + rewrite IH. split.
      * intros Hall it Hin. inversion Hin; subst; [done|]. by apply Hall.
      * intros Hall it Hin. apply Hall. by right.
Qed.

Lemma count_status_le_length (st : LineItemStatus) (items : list LineItem.t) :
  (count_status st items <= length items)%nat.
Proof.
  induction items as [|a items IH]; simpl; [lia|].
  destruct (String.eqb _ _); lia.
Qed.

Lemma count_status_all (st : LineItemStatus) (items : list LineItem.t) :
  count_status st items = length items <->
  forall it, it ∈ items -> LineItem.Status it = st.
Proof.
  induction items as [|a items IH]; simpl.
  - split; [|done]. intros _ it Hin. inversion Hin.
  - pose proof (count_status_le_length st items) as Hle.
    destruct (String.eqb_spec (LineItem.Status a) st) as [Heq|Hne].
    + split.
      * intros Hc it Hin. inversion Hin; subst; [done|]. apply IH; [lia|done].
      * intros Hall. f_equal. apply IH. intros it Hin. apply Hall. by right.
    + split; [lia|]. intros Hall. exfalso. apply Hne, Hall. left.
Qed.

(** ** The cancel loop is a map *)

Lemma set_item_status_middle (pre post : list LineItem.t) (it : LineItem.t)
    (st : LineItemStatus) :
  set_item_status (length pre) st (pre ++ it :: post)
  = pre ++ LineItem.with_status it st :: post.
Proof.
  unfold set_item_status.
  rewrite list_lookup_middle by done.
  by rewrite insert_app_r_alt, Nat.sub_diag by lia.
Qed.

Lemma cancel_at_middle (pre post : list LineItem.t) (it : LineItem.t) :
  cancel_at (length pre) (pre ++ it :: post) = pre ++ cancel_item it :: post.
Proof.
  unfold cancel_at, cancel_item.
  rewrite list_lookup_middle by done.
  destruct (String.eqb _ _); [|done].
  apply set_item_status_middle.
Qed.

Lemma cancel_loop_from (pre post : list LineItem.t) :
  fold_left (fun acc i => cancel_at i acc) (seq (length pre) (length post)) (pre ++ post)
  = pre ++ map cancel_item post.
Proof.
  revert pre. induction post as [|it post IH]; intros pre; simpl; [done|].
  rewrite cancel_at_middle.
  replace (pre ++ cancel_item it :: post) with ((pre ++ [cancel_item it]) ++ post)
    by (by rewrite <- app_assoc).
  replace (S (length pre)) with (length (pre ++ [cancel_item it]))
    by (rewrite length_app; simpl; lia).
  rewrite IH. by rewrite <- app_assoc.
Qed.

Lemma cancel_pending_map (items : list LineItem.t) :
  cancel_pending items = map cancel_item items.
Proof.
  unfold cancel_pending, for_range. apply (cancel_loop_from [] items).
Qed.

(** ** The aggregate's methods *)

(** Closes a goal whose context equates two different status constants. *)
Ltac clash :=
  cbv [ItemPending ItemCharged ItemFailed ItemCanceled ItemRefunded
       BillOpen BillCharging BillSettled BillCanceled BillExpired BillFailed
       BillCompensated] in *;
  congruence.

Lemma status_eqb_false (s t : string) : s <> t -> String.eqb s t = false.
Proof. intros Hne. by apply String.eqb_neq. Qed.

(** C5, with the total in [int64] arithmetic.  [AddItem] checks the status
    first and the identifier second.  On a
    bill that is not Open it returns [ErrBillNotOpen]; on an Open bill that
    already holds the identifier it returns [ErrDuplicateItem]; in both cases
    the bill (items and total included) is what it was.  Otherwise it returns
    nil, the items are the old ones followed by the argument with status
    Pending, and the total is the old total plus the amount in [int64]
    arithmetic, which is the exact sum whenever that fits. *)
Theorem AddItem_spec (b : Bill.t) (li : LineItem.t) :
  (Bill.Status b <> BillOpen -> AddItem b li = (b, Some ErrBillNotOpen)) /\
  (Bill.Status b = BillOpen ->
   (exists it, it ∈ Bill.Items b /\ LineItem.ID it = LineItem.ID li) ->
   AddItem b li = (b, Some (ErrDuplicateItem (LineItem.ID li)))) /\
  (Bill.Status b = BillOpen ->
   (forall it, it ∈ Bill.Items b -> LineItem.ID it <> LineItem.ID li) ->
   snd (AddItem b li) = None /\
   Bill.Items (fst (AddItem b li))
     = Bill.Items b ++ [LineItem.with_status li ItemPending] /\
   Bill.Total (fst (AddItem b li)) = add64 (Bill.Total b) (LineItem.Amount li) /\
   (in_int64 (Bill.Total b + LineItem.Amount li) ->
    Bill.Total (fst (AddItem b li)) = Bill.Total b + LineItem.Amount li) /\
   Bill.Status (fst (AddItem b li)) = BillOpen /\
   Bill.ID (fst (AddItem b li)) = Bill.ID b /\
   Bill.Cur (fst (AddItem b li)) = Bill.Cur b).
Proof.
  unfold AddItem. split; [|split].
  - intros Hst. by rewrite (status_eqb_false _ _ Hst).
  - intros Hst Hdup. rewrite Hst. simpl.
    apply has_item_id_true in Hdup. by rewrite Hdup.
  - intros Hst Hfresh. apply has_item_id_false in Hfresh.
    rewrite Hst, Hfresh. simpl. repeat split; try done.
    intros Hfit. by apply wrap64_id.
Qed.

(** C5: the total does not always grow by the amount.  On the Open bill that
    holds one item of amount 2^63-1, [AddItem] accepts a new item of amount 1
    and appends it as Pending, but the total goes from 2^63-1 to -2^63: it is
    not the old total plus the amount, and it is smaller than before. *)
Lemma AddItem_total_wraps :
  let b := fst (AddItem (new_bill "b" USD) (item "a" "Book" int64_max)) in
  let li := item "c" "Pen" 1 in
  Bill.Status b = BillOpen /\
  Bill.Total b = int64_max /\
  LineItem.Amount li = 1 /\
  snd (AddItem b li) = None /\
  Bill.Total (fst (AddItem b li)) = int64_min /\
  Bill.Total (fst (AddItem b li)) <> Bill.Total b + LineItem.Amount li /\
  Bill.Total (fst (AddItem b li)) < Bill.Total b.
Proof. vm_compute. repeat split; congruence. Qed.

(** C6. [BeginCharge] returns [ErrBillNotOpen] on a bill that is not Open and
    [ErrNoPendingItems] on an Open bill without a Pending item, leaving the
    bill as it was (so still Open in the second case); otherwise it returns
    nil and changes the status to Charging and nothing else. *)
Theorem BeginCharge_spec (b : Bill.t) :
  (Bill.Status b <> BillOpen -> BeginCharge b = (b, Some ErrBillNotOpen)) /\
  (Bill.Status b = BillOpen ->
   (forall it, it ∈ Bill.Items b -> LineItem.Status it <> ItemPending) ->
   BeginCharge b = (b, Some ErrNoPendingItems) /\
   Bill.Status (fst (BeginCharge b)) = BillOpen) /\
  (Bill.Status b = BillOpen ->
   (exists it, it ∈ Bill.Items b /\ LineItem.Status it = ItemPending) ->
   BeginCharge b =
     ({| Bill.ID := Bill.ID b; Bill.Status := BillCharging; Bill.Cur := Bill.Cur b;
         Bill.Items := Bill.Items b; Bill.Total := Bill.Total b |}, None)).
Proof.
  unfold BeginCharge, PendingCount. split; [|split].
  - intros Hst. by rewrite (status_eqb_false _ _ Hst).
  - intros Hst Hnone. rewrite Hst. simpl.
    apply count_status_zero in Hnone. rewrite Hnone. simpl. by split.
  - intros Hst (it & Hin & Hp). rewrite Hst. simpl.
    destruct (Nat.eqb_spec (count_status ItemPending (Bill.Items b)) 0) as [Hz|Hnz]; [|done].
    exfalso. by apply (proj1 (count_status_zero _ _) Hz it).
Qed.

(** C7. [Cancel] returns [ErrCannotCancel] on a bill that is not Open and
    leaves it as it was.  On an Open bill it returns nil; the status becomes
    Canceled; the items keep their number, order, identifiers, names and
    amounts; an item that was Pending is Canceled, any other item is the same
    item; the total is the same. *)
Theorem Cancel_spec (b : Bill.t) :
  (Bill.Status b <> BillOpen -> Cancel b = (b, Some ErrCannotCancel)) /\
  (Bill.Status b = BillOpen ->
   snd (Cancel b) = None /\
   Bill.Status (fst (Cancel b)) = BillCanceled /\
   Bill.Total (fst (Cancel b)) = Bill.Total b /\
   Bill.ID (fst (Cancel b)) = Bill.ID b /\
   Bill.Cur (fst (Cancel b)) = Bill.Cur b /\
   length (Bill.Items (fst (Cancel b))) = length (Bill.Items b) /\
   (forall i it, Bill.Items b !! i = Some it ->
      LineItem.Status it = ItemPending ->
      Bill.Items (fst (Cancel b)) !! i = Some (LineItem.with_status it ItemCanceled)) /\
   (forall i it, Bill.Items b !! i = Some it ->
      LineItem.Status it <> ItemPending ->
      Bill.Items (fst (Cancel b)) !! i = Some it)).
Proof.
  unfold Cancel. split.
  - intros Hst. by rewrite (status_eqb_false _ _ Hst).
  - intros Hst. rewrite Hst. simpl. rewrite cancel_pending_map.
    repeat split.
    + by rewrite length_map.
    + intros i it Hi Hp. rewrite list_lookup_fmap, Hi. simpl.
      unfold cancel_item. by rewrite Hp.
    + intros i it Hi Hnp. rewrite list_lookup_fmap, Hi. simpl.
      unfold cancel_item. by rewrite (status_eqb_false _ _ Hnp).
Qed.

(** ** The barrier: every launched task completes once, in some order *)

Lemma set_item_status_length (i : nat) (st : LineItemStatus) (items : list LineItem.t) :
  length (set_item_status i st items) = length items.
Proof.
  unfold set_item_status. destruct (items !! i); [|done]. apply length_insert.
Qed.

Lemma set_item_status_lookup_eq (i : nat) (st : LineItemStatus)
    (items : list LineItem.t) (it : LineItem.t) :
  items !! i = Some it ->
  set_item_status i st items !! i = Some (LineItem.with_status it st).
Proof.
  intros Hi. unfold set_item_status. rewrite Hi.
  apply list_lookup_insert_eq. by apply lookup_lt_Some in Hi.
Qed.

Lemma set_item_status_lookup_ne (i j : nat) (st : LineItemStatus)
    (items : list LineItem.t) :
  i <> j -> set_item_status i st items !! j = items !! j.
Proof.
  intros Hne. unfold set_item_status. destruct (items !! i); [|done].
  by apply list_lookup_insert_ne.
Qed.

(** The barrier runs the completion code of the launched tasks in an order
    that is a permutation of the launch order and depends on the scheduler
    only. *)
Lemma join_order (sched : Scheduler) (n : nat) (inflight : list Task) :
  n = length inflight ->
  exists order : list Task,
    order ≡ₚ inflight /\
    forall (S : Type) (complete : Task -> S -> S) (s : S),
      join n sched inflight complete s
      = fold_left (fun acc t => complete t acc) order s.
Proof.
  revert inflight. induction n as [|n IH]; intros inflight Hn.
  - destruct inflight; [|done]. exists []. split; [done|]. by intros.
  - destruct inflight as [|t0 rest0] eqn:Hin; [done|]. rewrite <- Hin in *.
    assert (Hlen : (0 < length inflight)%nat) by (subst; simpl; lia).
    set (k := (sched (map fst inflight) mod length inflight)%nat).
    assert (Hk : (k < length inflight)%nat) by (apply Nat.mod_upper_bound; lia).
    destruct (lookup_lt_is_Some_2 inflight k Hk) as [t Ht].
    destruct (IH (delete k inflight)) as (order & Hperm & Hrun).
    { rewrite length_delete by eauto. lia. }
    exists (t :: order). split.
    + rewrite Hperm. symmetry. by apply delete_Permutation.
    + intros S complete s. simpl. fold k. rewrite Ht. apply Hrun.
Qed.

Lemma writes_fold_length (f : Task -> LineItemStatus) (order : list Task)
    (items : list LineItem.t) :
  length (fold_left (fun acc t => writes_status f t acc) order items) = length items.
Proof.
  revert items. induction order as [|t order IH]; intros items; simpl; [done|].
  rewrite IH. apply set_item_status_length.
Qed.

Lemma writes_fold_other (f : Task -> LineItemStatus) (order : list Task)
    (items : list LineItem.t) (j : nat) :
  j ∉ order.*1 ->
  fold_left (fun acc t => writes_status f t acc) order items !! j = items !! j.
Proof.
  revert items. induction order as [|t order IH]; intros items Hj; simpl; [done|].
  rewrite fmap_cons, not_elem_of_cons in Hj. destruct Hj as [Hne Hj].
  rewrite IH by done. apply set_item_status_lookup_ne. congruence.
Qed.

Lemma writes_fold_own (f : Task -> LineItemStatus) (order : list Task)
    (items : list LineItem.t) (j : nat) (x it : LineItem.t) :
  NoDup order.*1 ->
  (j, x) ∈ order ->
  items !! j = Some it ->
  fold_left (fun acc t => writes_status f t acc) order items !! j
  = Some (LineItem.with_status it (f (j, x))).
Proof.
  revert items. induction order as [|t order IH]; intros items Hnd Hin Hj; simpl.
  - inversion Hin.
  - rewrite fmap_cons in Hnd. apply NoDup_cons in Hnd as [Hfresh Hnd].
    apply elem_of_cons in Hin as [<-|Hin].
    + rewrite writes_fold_other by exact Hfresh.
      by apply set_item_status_lookup_eq.
    + assert (fst t <> j) as Hne.
      { intros <-. apply Hfresh. apply list_elem_of_fmap. by exists (fst t, x). }
      apply IH; [done|done|].
      unfold writes_status. by rewrite set_item_status_lookup_ne.
Qed.

(** ** What the launching loops launch *)

Lemma elem_of_launch_from (k : nat) (st : LineItemStatus) (items : list LineItem.t)
    (i : nat) (it : LineItem.t) :
  (i, it) ∈ launch_from k st items <->
  (k <= i)%nat /\ items !! (i - k)%nat = Some it /\ LineItem.Status it = st.
Proof.
  revert k. induction items as [|a items IH]; intros k; simpl.
  - split; [intros H; inversion H|]. by intros (_ & H & _).
  - assert (Hrest : (i, it) ∈ launch_from (S k) st items <->
                    (k < i)%nat /\ (a :: items) !! (i - k)%nat = Some it
                    /\ LineItem.Status it = st).
    { rewrite IH. split.
      - intros (Hle & Hl & Hs). split; [lia|]. split; [|done].
        replace (i - k)%nat with (S (i - S k)) by lia. done.
      - intros (Hlt & Hl & Hs). split; [lia|]. split; [|done].
        replace (i - k)%nat with (S (i - S k)) in Hl by lia. done. }
    destruct (String.eqb_spec (LineItem.Status a) st) as [Heq|Hne].
    + rewrite elem_of_cons, Hrest. split.
      * intros [[= -> ->]|(Hlt & Hl & Hs)].
        -- rewrite Nat.sub_diag. done.
        -- split; [lia|done].
      * intros (Hle & Hl & Hs).
        destruct (decide (i = k)) as [->|Hik].
        -- left. rewrite Nat.sub_diag in Hl. simpl in Hl. congruence.
        -- right. split; [lia|done].
    + rewrite Hrest. split.
      * intros (Hlt & Hl & Hs). split; [lia|done].
      * intros (Hle & Hl & Hs). split; [|done].
        destruct (decide (i = k)) as [->|Hik]; [|lia].
        rewrite Nat.sub_diag in Hl. simpl in Hl. congruence.
Qed.

Lemma launch_from_indices_ge (k : nat) (st : LineItemStatus) (items : list LineItem.t)
    (i : nat) :
  i ∈ (launch_from k st items).*1 -> (k <= i)%nat.
Proof.
  intros Hin. apply list_elem_of_fmap in Hin as ([i' it] & -> & Hin).
  by apply elem_of_launch_from in Hin as (Hle & _).
Qed.

Lemma launch_from_NoDup (k : nat) (st : LineItemStatus) (items : list LineItem.t) :
  NoDup (launch_from k st items).*1.
Proof.
  revert k. induction items as [|a items IH]; intros k; simpl; [constructor|].
  destruct (String.eqb _ _); [|apply IH].
  rewrite fmap_cons. apply NoDup_cons. split; [|apply IH].
  intros Hin. apply launch_from_indices_ge in Hin. simpl in Hin. lia.
Qed.

Lemma elem_of_launch (st : LineItemStatus) (items : list LineItem.t)
    (i : nat) (it : LineItem.t) :
  (i, it) ∈ launch st items <-> items !! i = Some it /\ LineItem.Status it = st.
Proof.
  unfold launch. rewrite elem_of_launch_from, Nat.sub_0_r. split.
  - by intros (_ & H).
  - intros H. split; [lia|done].
Qed.

(** ** The fan-outs are maps, whatever the scheduler does *)

Lemma fold_left_ext_fun {A B : Type} (g h : A -> B -> A) (l : list B) (a : A) :
  (forall x y, g x y = h x y) -> fold_left g l a = fold_left h l a.
Proof.
  intros Hgh. revert a. induction l as [|y l IH]; intros a; simpl; [done|].
  by rewrite Hgh, IH.
Qed.

Lemma writes_launch (f : Task -> LineItemStatus) (st : LineItemStatus)
    (items : list LineItem.t) (order : list Task) :
  order ≡ₚ launch st items ->
  fold_left (fun acc t => writes_status f t acc) order items
  = imap (fun i it => if String.eqb (LineItem.Status it) st
                      then LineItem.with_status it (f (i, it)) else it) items.
Proof.
  intros Hperm.
  assert (Hnd : NoDup order.*1).
  { rewrite Hperm. apply launch_from_NoDup. }
  assert (Hidx : forall j, j ∈ order.*1 ->
            exists x, items !! j = Some x /\ LineItem.Status x = st).
  { intros j Hj. apply list_elem_of_fmap in Hj as ([j' x] & -> & Hin).
    rewrite Hperm in Hin. apply elem_of_launch in Hin. by exists x. }
  apply list_eq. intros j. rewrite list_lookup_imap.
  destruct (items !! j) as [it|] eqn:Hj; simpl.
  - destruct (String.eqb_spec (LineItem.Status it) st) as [Hst|Hst].
    + apply writes_fold_own with (x := it); [done| |done].
      rewrite Hperm. by apply elem_of_launch.
    + rewrite writes_fold_other; [done|].
      intros Hin. destruct (Hidx j Hin) as (x & Hx & Hs). congruence.
  - rewrite writes_fold_other; [done|].
    intros Hin. destruct (Hidx j Hin) as (x & Hx & Hs). congruence.
Qed.

Lemma launch_from_length (k : nat) (st : LineItemStatus) (items : list LineItem.t) :
  length (launch_from k st items) = count_status st items.
Proof.
  revert k. induction items as [|a items IH]; intros k; simpl; [done|].
  destruct (String.eqb _ _); simpl; by rewrite IH.
Qed.

Lemma launch_from_snd (k : nat) (st : LineItemStatus) (items : list LineItem.t) :
  (launch_from k st items).*2
  = filter (fun it => LineItem.Status it = st) items.
Proof.
  revert k. induction items as [|a items IH]; intros k; simpl; [done|].
  rewrite filter_cons.
  destruct (String.eqb_spec (LineItem.Status a) st) as [Heq|Hne].
  - rewrite decide_True by done. rewrite fmap_cons. simpl. by rewrite IH.
  - rewrite decide_False by done. apply IH.
Qed.

Lemma launch_activities (mk : LineItem.t -> Activity) (st : LineItemStatus)
    (items : list LineItem.t) :
  map (fun t : Task => mk (snd t)) (launch st items)
  = map mk (filter (fun it => LineItem.Status it = st) items).
Proof.
  unfold launch. rewrite <- (launch_from_snd 0).
  by rewrite <- list_fmap_compose.
Qed.

(** The charge fan-out sets every Pending item to Failed or Charged according
    to the executor's answer for it and touches nothing else. *)
Lemma charge_all_imap (ex : Executor) (sched : Scheduler) (items : list LineItem.t) :
  charge_all ex sched items = imap (charged_item ex) items.
Proof.
  unfold charge_all, wait.
  destruct (join_order sched _ (launch ItemPending items) eq_refl)
    as (order & Hperm & Hrun).
  rewrite Hrun.
  rewrite (fold_left_ext_fun _ (fun acc t => writes_status (charge_status ex) t acc)).
  - by apply writes_launch.
  - intros acc t. unfold charge_complete, writes_status, charge_status.
    by destruct (charge_err ex t.1 t.2).
Qed.

Lemma refund_fold (ex : Executor) (order : list Task) (items : list LineItem.t) (n : nat) :
  fold_left (fun acc t => refund_complete ex t acc) order (items, n)
  = (fold_left (fun acc t => writes_status (fun _ => ItemRefunded) t acc) order items,
     (n + length order)%nat).
Proof.
  revert items n. induction order as [|t order IH]; intros items n; simpl.
  - by rewrite Nat.add_0_r.
  - unfold refund_complete at 2. simpl. rewrite IH. f_equal. lia.
Qed.

(** The refund fan-out sets every Charged item to Refunded, touches nothing
    else, and counts one refund per Charged item. *)
Lemma refund_all_map (ex : Executor) (sched : Scheduler) (items : list LineItem.t) :
  refund_all ex sched items
  = (map refunded_item items, count_status ItemCharged items).
Proof.
  unfold refund_all, wait.
  destruct (join_order sched _ (launch ItemCharged items) eq_refl)
    as (order & Hperm & Hrun).
  rewrite Hrun, refund_fold. f_equal.
  - rewrite (writes_launch _ ItemCharged) by done. apply imap_const.
  - simpl. rewrite Hperm. apply launch_from_length.
Qed.

(** ** Resolution of the charging phase *)

Lemma after_loop_charging (ex : Executor) (sched : Scheduler) (b : Bill.t) :
  Bill.Status b = BillCharging -> after_loop ex sched b = charging ex sched b.
Proof. intros Hst. unfold after_loop. by rewrite Hst. Qed.

Lemma failed_ids_filter (items : list LineItem.t) :
  failed_ids items
  = map LineItem.ID (filter (fun it => LineItem.Status it = ItemFailed) items).
Proof.
  induction items as [|a items IH]; simpl; [done|].
  rewrite filter_cons.
  destruct (String.eqb_spec (LineItem.Status a) ItemFailed) as [Heq|Hne].
  - rewrite decide_True by done. simpl. by rewrite IH.
  - by rewrite decide_False.
Qed.

Lemma failed_ids_refunded (items : list LineItem.t) :
  failed_ids (map refunded_item items) = failed_ids items.
Proof.
  induction items as [|a items IH]; simpl; [done|].
  rewrite IH. unfold refunded_item.
  destruct (String.eqb_spec (LineItem.Status a) ItemCharged) as [Heq|Hne]; [|done].
  simpl. by rewrite Heq.
Qed.

Lemma filter_status_all (st : LineItemStatus) (items : list LineItem.t) :
  (forall it, it ∈ items -> LineItem.Status it = st) ->
  filter (fun it => LineItem.Status it = st) items = items.
Proof.
  induction items as [|a items IH]; intros Hall; [done|].
  rewrite filter_cons, decide_True by (apply Hall; left).
  f_equal. apply IH. intros it Hin. apply Hall. by right.
Qed.

Lemma count_failed_partial (items : list LineItem.t) :
  (exists it, it ∈ items /\ LineItem.Status it = ItemFailed) ->
  (exists it, it ∈ items /\ LineItem.Status it = ItemCharged) ->
  Nat.eqb (count_status ItemFailed items) (length items) = false /\
  Nat.eqb (count_status ItemFailed items) 0 = false.
Proof.
  intros (f & Hf & Hfs) (c & Hc & Hcs). split; apply Nat.eqb_neq; intros Heq.
  - pose proof (proj1 (count_status_all _ _) Heq c Hc) as Habs. clash.
  - by apply (proj1 (count_status_zero _ _) Heq f).
Qed.

(** C1. Take a bill in the Charging phase and let [charged] be its items
    after the charge barrier.  If some item of [charged] is Failed and some
    item is Charged, then, for every executor and scheduler: one refund is
    handed to the executor for each Charged item (after the charges, and
    nothing else); every Charged item ends Refunded and every other item is
    as the charge phase left it; the bill ends Compensated with its total
    untouched; and the workflow returns an application error of type
    ChargeCompensated whose details are the identifiers of the Failed items
    of [charged], in item order. *)
Theorem partial_failure_compensates (ex : Executor) (sched : Scheduler) (b : Bill.t) :
  Bill.Status b = BillCharging ->
  (exists it, it ∈ charge_all ex sched (Bill.Items b) /\ LineItem.Status it = ItemFailed) ->
  (exists it, it ∈ charge_all ex sched (Bill.Items b) /\ LineItem.Status it = ItemCharged) ->
  let charged := charge_all ex sched (Bill.Items b) in
  let o := after_loop ex sched b in
  activities o
    = map ExecCharge (filter (fun it => LineItem.Status it = ItemPending) (Bill.Items b))
      ++ map ExecRefund (filter (fun it => LineItem.Status it = ItemCharged) charged) /\
  Bill.Items (final o) = map refunded_item charged /\
  (forall i it, charged !! i = Some it -> LineItem.Status it = ItemCharged ->
     Bill.Items (final o) !! i = Some (LineItem.with_status it ItemRefunded)) /\
  (forall i it, charged !! i = Some it -> LineItem.Status it <> ItemCharged ->
     Bill.Items (final o) !! i = Some it) /\
  Bill.Status (final o) = BillCompensated /\
  Bill.Total (final o) = Bill.Total b /\
  exists e, result o = Some e /\
    err_type e = "ChargeCompensated" /\
    err_non_retryable e = false /\
    err_details e
      = map LineItem.ID (filter (fun it => LineItem.Status it = ItemFailed) charged).
Proof.
  intros Hst Hfailed Hcharged charged o.
  destruct (count_failed_partial _ Hfailed Hcharged) as [Hall Hzero].
  subst o charged. rewrite after_loop_charging by done.
  unfold charging. simpl.
  rewrite Hall, Hzero, refund_all_map. simpl.
  repeat split.
  - by rewrite !launch_activities.
  - intros i it Hi Hc. rewrite list_lookup_fmap, Hi. simpl.
    unfold refunded_item. by rewrite Hc.
  - intros i it Hi Hc. rewrite list_lookup_fmap, Hi. simpl.
    unfold refunded_item. by rewrite (status_eqb_false _ _ Hc).
  - eexists. split; [done|]. simpl. repeat split.
    by rewrite failed_ids_refunded, failed_ids_filter.
Qed.

(** C2. Take a bill in the Charging phase whose items are all Failed after
    the charge barrier.  Then, for every executor and scheduler: only the
    charges were handed to the executor, so no refund; the items stay as the
    charge phase left them; the bill ends Failed; and the workflow returns an
    application error of type ChargeFailed, a type different from
    ChargeCompensated, whose details are the identifiers of all items, which
    are the Failed ones. *)
Theorem all_failed_fails (ex : Executor) (sched : Scheduler) (b : Bill.t) :
  Bill.Status b = BillCharging ->
  Bill.Items b <> [] ->
  (forall it, it ∈ charge_all ex sched (Bill.Items b) -> LineItem.Status it = ItemFailed) ->
  let charged := charge_all ex sched (Bill.Items b) in
  let o := after_loop ex sched b in
  activities o
    = map ExecCharge (filter (fun it => LineItem.Status it = ItemPending) (Bill.Items b)) /\
  (forall li, ExecRefund li ∉ activities o) /\
  Bill.Items (final o) = charged /\
  Bill.Status (final o) = BillFailed /\
  Bill.Total (final o) = Bill.Total b /\
  exists e, result o = Some e /\
    err_type e = "ChargeFailed" /\
    err_type e <> "ChargeCompensated" /\
    err_non_retryable e = false /\
    err_details e = map LineItem.ID charged /\
    err_details e
      = map LineItem.ID (filter (fun it => LineItem.Status it = ItemFailed) charged).
Proof.
  intros Hst _ Hall charged o.
  assert (Hcount : Nat.eqb (count_status ItemFailed charged) (length charged) = true).
  { apply Nat.eqb_eq. by apply count_status_all. }
  pose proof (launch_activities ExecCharge ItemPending (Bill.Items b)) as Hacts.
  subst o charged. rewrite after_loop_charging by done.
  unfold charging. simpl. rewrite Hcount. simpl.
  repeat split; try done.
  - intros li Hin. rewrite Hacts in Hin.
    apply list_elem_of_fmap in Hin as (x & Hx & _). discriminate.
  - eexists. split; [done|]. simpl. repeat split; try done.
    by rewrite filter_status_all.
Qed.

(** ** The event loop *)

Lemma event_loop_not_open (evs : list Stimulus) (s : LoopState) :
  Bill.Status (bill s) <> BillOpen -> event_loop evs s = s.
Proof.
  intros Hst. destruct evs as [|ev evs]; simpl; [done|].
  by rewrite (status_eqb_false _ _ Hst).
Qed.

(** Induction over the iterations of the loop: a property that holds on entry
    and survives every [Select] made on an Open bill holds on exit. *)
Lemma event_loop_preserves (P : LoopState -> Prop) :
  (forall s ev, Bill.Status (bill s) = BillOpen -> P s -> P (select ev s)) ->
  forall evs s, P s -> P (event_loop evs s).
Proof.
  intros Hstep evs. induction evs as [|ev evs IH]; intros s Hs; simpl; [done|].
  destruct (String.eqb_spec (Bill.Status (bill s)) BillOpen) as [Hopen|Hclosed]; [|done].
  apply IH. by apply Hstep.
Qed.

Lemma loop_init_inv (billID : string) (cur : Currency) : loop_inv (loop_init billID cur).
Proof.
  left. simpl. repeat split; [constructor| |]; apply not_elem_of_nil.
Qed.

Lemma not_elem_of_snoc (c d : Call) (l : list Call) :
  c ∉ l -> c <> d -> c ∉ l ++ [d].
Proof.
  intros Hl Hne Hin. apply elem_of_app in Hin as [Hin|Hin]; [done|].
  apply list_elem_of_singleton in Hin. done.
Qed.

Lemma select_inv (s : LoopState) (ev : Stimulus) :
  Bill.Status (bill s) = BillOpen -> loop_inv s -> loop_inv (select ev s).
Proof.
  intros Hopen [(_ & Hpend & Htimer & Hexp & Hcan)|[H|[H|H]]];
    [|destruct H as (H & _); clash..].
  destruct ev as [li| | |]; simpl.
  - (* add-item *)
    unfold on_add, AddItem. rewrite Hopen. simpl.
    destruct (has_item_id (LineItem.ID li) (Bill.Items (bill s))); simpl.
    + left. simpl. repeat split; try done; by apply not_elem_of_snoc.
    + left. simpl. repeat split; try done; [|by apply not_elem_of_snoc..].
      apply Forall_app. split; [done|]. by constructor.
  - (* charge *)
    unfold on_charge, BeginCharge, PendingCount. rewrite Hopen. simpl.
    destruct (Nat.eqb_spec (count_status ItemPending (Bill.Items (bill s))) 0)
      as [Hz|Hnz]; simpl.
    + left. simpl. repeat split; try done; by apply not_elem_of_snoc.
    + right. left. simpl. repeat split; try done.
      * intros Hnil. by rewrite Hnil in Hnz.
      * by exists (calls s).
  - (* cancel *)
    unfold on_cancel, Cancel. rewrite Hopen. simpl.
    right. right. left. simpl. repeat split. by exists (calls s).
  - (* timer *)
    right. right. right. simpl. repeat split; [done|]. by exists (calls s).
Qed.

Lemma event_loop_inv (billID : string) (cur : Currency) (evs : list Stimulus) :
  loop_inv (event_loop evs (loop_init billID cur)).
Proof.
  apply event_loop_preserves; [|apply loop_init_inv].
  intros s ev. apply select_inv.
Qed.

Lemma event_loop_app (evs more : list Stimulus) (s : LoopState) :
  event_loop (evs ++ more) s = event_loop more (event_loop evs s).
Proof.
  revert s. induction evs as [|ev evs IH]; intros s; simpl; [done|].
  destruct (String.eqb_spec (Bill.Status (bill s)) BillOpen) as [Hopen|Hclosed].
  - apply IH.
  - symmetry. by apply event_loop_not_open.
Qed.

Lemma select_keeps_identity (s : LoopState) (ev : Stimulus) :
  Bill.ID (bill (select ev s)) = Bill.ID (bill s) /\
  Bill.Cur (bill (select ev s)) = Bill.Cur (bill s).
Proof.
  destruct ev as [li| | |]; simpl.
  - unfold on_add, AddItem.
    destruct (negb _); [done|]. by destruct (has_item_id _ _).
  - unfold on_charge, BeginCharge.
    destruct (negb _); [done|]. by destruct (Nat.eqb _ _).
  - unfold on_cancel, Cancel. by destruct (negb _).
  - done.
Qed.

Lemma event_loop_identity (billID : string) (cur : Currency) (evs : list Stimulus) :
  Bill.ID (bill (event_loop evs (loop_init billID cur))) = billID /\
  Bill.Cur (bill (event_loop evs (loop_init billID cur))) = cur.
Proof.
  apply (event_loop_preserves
           (fun s => Bill.ID (bill s) = billID /\ Bill.Cur (bill s) = cur)); [|done].
  intros s ev _ [Hid Hcur]. destruct (select_keeps_identity s ev) as [-> ->]. done.
Qed.

Lemma all_pending_lookup (items : list LineItem.t) (i : nat) (it : LineItem.t) :
  all_pending items -> items !! i = Some it -> LineItem.Status it = ItemPending.
Proof. intros Hall Hi. exact (Forall_lookup_1 _ _ _ _ Hall Hi). Qed.

Lemma all_pending_elem (items : list LineItem.t) (it : LineItem.t) :
  all_pending items -> it ∈ items -> LineItem.Status it = ItemPending.
Proof.
  intros Hall Hin. apply list_elem_of_lookup in Hin as [i Hi].
  by apply (all_pending_lookup items i).
Qed.

Lemma charged_item_status (ex : Executor) (i : nat) (it : LineItem.t) :
  LineItem.Status it = ItemPending ->
  LineItem.Status (charged_item ex i it) = ItemFailed \/
  LineItem.Status (charged_item ex i it) = ItemCharged.
Proof.
  intros Hp. unfold charged_item, charge_status. rewrite Hp. simpl.
  destruct (charge_err ex i it); [by left|by right].
Qed.

Lemma final_status_not_expired (ex : Executor) (sched : Scheduler) (b : Bill.t) :
  Bill.Status b = BillCharging \/ Bill.Status b = BillCanceled ->
  Bill.Status (final (after_loop ex sched b)) <> BillExpired.
Proof.
  intros [Hst|Hst].
  - rewrite after_loop_charging by done. unfold charging. simpl.
    destruct (Nat.eqb _ _); [simpl; clash|].
    destruct (Nat.eqb _ _); [simpl; clash|].
    destruct (refund_all _ _ _). simpl. clash.
  - unfold after_loop. rewrite Hst. simpl. clash.
Qed.

(** C3. Take a run of the event loop that leaves the bill in the Charging
    phase, and an executor under which no item is Failed after the charge
    barrier.  Then every item is Charged, the bill ends Settled, the workflow
    returns nil, and after one charge per item exactly one credit activity is
    handed to the executor, for the bill's running total in the bill's
    currency.  The result of that credit is dropped: with any other answer to
    the credit the outcome, the activities included, is the same. *)
Theorem no_failure_settles (billID : string) (cur : Currency) (evs : list Stimulus)
    (ex : Executor) (sched : Scheduler) :
  let s := event_loop evs (loop_init billID cur) in
  Bill.Status (bill s) = BillCharging ->
  (forall it, it ∈ charge_all ex sched (Bill.Items (bill s)) ->
              LineItem.Status it <> ItemFailed) ->
  let o := after_loop ex sched (bill s) in
  Bill.Status (final o) = BillSettled /\
  result o = None /\
  activities o
    = map ExecCharge (Bill.Items (bill s)) ++ [ExecCredit (Bill.Total (bill s)) cur] /\
  Bill.Items (final o) = charge_all ex sched (Bill.Items (bill s)) /\
  (forall it, it ∈ Bill.Items (final o) -> LineItem.Status it = ItemCharged) /\
  Bill.Total (final o) = Bill.Total (bill s) /\
  (forall credit' : Z -> Currency -> bool,
     after_loop {| charge_err := charge_err ex; refund_err := refund_err ex;
                   credit_err := credit' |} sched (bill s) = o).
Proof.
  intros s Hst Hnone o.
  pose proof (event_loop_inv billID cur evs) as Hinv. fold s in Hinv.
  destruct Hinv as [H|[(_ & Hpend & Hne & _)|[H|H]]];
    [destruct H as (H & _); clash| |destruct H as (H & _); clash..].
  destruct (event_loop_identity billID cur evs) as [_ Hcur]. fold s in Hcur.
  assert (Hzero : count_status ItemFailed (charge_all ex sched (Bill.Items (bill s))) = O).
  { by apply count_status_zero. }
  assert (Hlen : length (charge_all ex sched (Bill.Items (bill s))) <> O).
  { rewrite charge_all_imap, length_imap. by destruct (Bill.Items (bill s)). }
  assert (Hcharged : forall it, it ∈ charge_all ex sched (Bill.Items (bill s)) ->
                                LineItem.Status it = ItemCharged).
  { intros it Hin. pose proof (Hnone it Hin) as Hnf.
    rewrite charge_all_imap in Hin.
    apply list_elem_of_lookup in Hin as [i Hi].
    rewrite list_lookup_imap in Hi.
    destruct (Bill.Items (bill s) !! i) as [x|] eqn:Hx; [|done].
    simpl in Hi. injection Hi as <-.
    pose proof (all_pending_lookup _ _ _ Hpend Hx) as Hp.
    by destruct (charged_item_status ex i x Hp). }
  subst o. rewrite after_loop_charging by done.
  unfold charging. simpl. rewrite Hzero.
  destruct (length (charge_all ex sched (Bill.Items (bill s)))) as [|n] eqn:Hn; [done|].
  simpl. rewrite Hcur. repeat split; try done.
  - rewrite launch_activities, filter_status_all; [done|].
    intros it Hin. by apply (all_pending_elem (Bill.Items (bill s))).
  - intros credit'. rewrite after_loop_charging by done.
    unfold charging. simpl.
    change (charge_all {| charge_err := charge_err ex; refund_err := refund_err ex;
                          credit_err := credit' |} sched (Bill.Items (bill s)))
      with (charge_all ex sched (Bill.Items (bill s))).
    rewrite Hzero, Hn. simpl. by rewrite Hcur.
Qed.

(** C8. Take any run of the event loop that leaves the bill in Charging or
    in Canceled.  Then the timer has been canceled; the last two calls of the
    run are the successful [BeginCharge] or [Cancel] and [cancelTimer], with
    no [Expire] before them, so [Expire] was never called; whatever stimuli
    follow, a ready timer included, the loop runs no callback any more; and
    the bill the workflow ends with is not Expired. *)
Theorem canceled_timer_never_expires (billID : string) (cur : Currency)
    (evs : list Stimulus) :
  let s := event_loop evs (loop_init billID cur) in
  Bill.Status (bill s) = BillCharging \/ Bill.Status (bill s) = BillCanceled ->
  timer_canceled s = true /\
  (exists pre c, calls s = pre ++ [c; CallCancelTimer] /\
                 (c = CallBeginCharge \/ c = CallCancel) /\ CallExpire ∉ pre) /\
  (CallExpire ∉ calls s) /\
  (forall more, event_loop (evs ++ more) (loop_init billID cur) = s) /\
  (forall more, Bill.Status (bill (event_loop more s)) <> BillExpired) /\
  (forall ex sched, Bill.Status (final (after_loop ex sched (bill s))) <> BillExpired).
Proof.
  intros s Hst.
  assert (Hclosed : Bill.Status (bill s) <> BillOpen) by (destruct Hst; clash).
  assert (Hstay : forall more, event_loop more s = s).
  { intros more. by apply event_loop_not_open. }
  assert (Hcalls : timer_canceled s = true /\
            exists pre c, calls s = pre ++ [c; CallCancelTimer] /\
              (c = CallBeginCharge \/ c = CallCancel) /\ CallExpire ∉ pre).
  { pose proof (event_loop_inv billID cur evs) as Hinv. fold s in Hinv.
    destruct Hinv as [H|[H|[H|H]]].
    - destruct H as (H & _). clash.
    - destruct H as (_ & _ & _ & Ht & pre & Hc & He & _).
      split; [done|]. exists pre, CallBeginCharge. auto.
    - destruct H as (_ & Ht & pre & Hc & He & _).
      split; [done|]. exists pre, CallCancel. auto.
    - destruct H as (H & _). destruct Hst; clash. }
  destruct Hcalls as (Ht & pre & c & Hc & Hcc & He).
  split; [done|]. split; [by exists pre, c|]. split; [|split; [|split]].
  - rewrite Hc. intros Hin. apply elem_of_app in Hin as [Hin|Hin]; [done|].
    apply elem_of_cons in Hin as [Hin|Hin]; [destruct Hcc; congruence|].
    apply list_elem_of_singleton in Hin. discriminate.
  - intros more. rewrite event_loop_app. apply Hstay.
  - intros more. rewrite Hstay. destruct Hst; clash.
  - intros ex sched. by apply final_status_not_expired.
Qed.

(** C9. [AddItem] does not look at the status of its argument: the call
    gives the same bill and the same error whatever status the caller
    supplied, and an accepted item is stored last with status Pending.
    Hence in every run of the event loop, while the bill is Open all its
    items are Pending, and when [BeginCharge] succeeds the bill is Charging
    with the same items, all Pending, and at least one of them. *)
Theorem open_items_are_pending :
  (forall b li st, AddItem b (LineItem.with_status li st) = AddItem b li) /\
  (forall b li, snd (AddItem b li) = None ->
     last (Bill.Items (fst (AddItem b li))) = Some (LineItem.with_status li ItemPending)) /\
  (forall billID cur evs,
     let s := event_loop evs (loop_init billID cur) in
     (Bill.Status (bill s) = BillOpen -> all_pending (Bill.Items (bill s))) /\
     (Bill.Status (bill s) = BillOpen -> snd (BeginCharge (bill s)) = None ->
        Bill.Status (fst (BeginCharge (bill s))) = BillCharging /\
        Bill.Items (fst (BeginCharge (bill s))) = Bill.Items (bill s) /\
        all_pending (Bill.Items (fst (BeginCharge (bill s))))) /\
     (Bill.Status (bill s) = BillCharging ->
        all_pending (Bill.Items (bill s)) /\ Bill.Items (bill s) <> [])).
Proof.
  split; [|split].
  - done.
  - intros b li. unfold AddItem.
    destruct (negb _); [done|]. destruct (has_item_id _ _); [done|].
    intros _. simpl. apply last_snoc.
  - intros billID cur evs s.
    pose proof (event_loop_inv billID cur evs) as Hinv. fold s in Hinv.
    split; [|split].
    + intros Hst. destruct Hinv as [H|[H|[H|H]]];
        [by destruct H as (_ & H & _)|destruct H as (H & _); clash..].
    + intros Hst. destruct Hinv as [H|[H|[H|H]]];
        [|destruct H as (H & _); clash..].
      destruct H as (_ & Hpend & _).
      unfold BeginCharge. rewrite Hst. simpl.
      destruct (Nat.eqb _ _); [done|]. done.
    + intros Hst. destruct Hinv as [H|[H|[H|H]]];
        [destruct H as (H & _); clash| |destruct H as (H & _); clash..].
      by destruct H as (_ & Hpend & Hne & _).
Qed.

(** ** The running total *)

Lemma sumZ_app (l1 l2 : list Z) : sumZ (l1 ++ l2) = sumZ l1 + sumZ l2.
Proof. induction l1 as [|x l1 IH]; simpl; [done|]. rewrite IH. lia. Qed.

Lemma sumZ_nonneg (l : list Z) : Forall (fun z => 0 <= z) l -> 0 <= sumZ l.
Proof.
  induction 1 as [|x l Hx _ IH]; simpl; lia.
Qed.

Lemma set_item_status_amounts (i : nat) (st : LineItemStatus) (items : list LineItem.t) :
  map LineItem.Amount (set_item_status i st items) = map LineItem.Amount items.
Proof.
  unfold set_item_status. destruct (items !! i) as [it|] eqn:Hi; [|done].
  rewrite list_fmap_insert. simpl. apply list_insert_id.
  by rewrite list_lookup_fmap, Hi.
Qed.

Lemma cancel_pending_amounts (items : list LineItem.t) :
  map LineItem.Amount (cancel_pending items) = map LineItem.Amount items.
Proof.
  rewrite cancel_pending_map, <- list_fmap_compose. apply list_fmap_ext.
  intros i it _. simpl. unfold cancel_item. by destruct (String.eqb _ _).
Qed.

(** Only an accepted [AddItem] moves the total, and it appends its amount. *)
Lemma apply_op_effect (op : BillOp) (b : Bill.t) :
  match op with
  | OpAddItem li =>
      match snd (AddItem b li) with
      | None =>
          Bill.Total (apply_op op b) = add64 (Bill.Total b) (LineItem.Amount li) /\
          map LineItem.Amount (Bill.Items (apply_op op b))
          = map LineItem.Amount (Bill.Items b) ++ [LineItem.Amount li]
      | Some _ => apply_op op b = b
      end
  | _ =>
      Bill.Total (apply_op op b) = Bill.Total b /\
      map LineItem.Amount (Bill.Items (apply_op op b)) = map LineItem.Amount (Bill.Items b)
  end.
Proof.
  destruct op as [li| | | |i st|st]; simpl.
  - unfold AddItem. destruct (negb _); [done|].
    destruct (has_item_id _ _); [done|]. simpl. by rewrite fmap_app.
  - unfold BeginCharge. destruct (negb _); [done|]. by destruct (Nat.eqb _ _).
  - unfold Cancel. destruct (negb _); [done|]. simpl.
    by rewrite cancel_pending_amounts.
  - by rewrite cancel_pending_amounts.
  - by rewrite set_item_status_amounts.
  - done.
Qed.

Lemma run_ops_app (ops1 ops2 : list BillOp) (b : Bill.t) :
  run_ops (ops1 ++ ops2) b = run_ops ops2 (run_ops ops1 b).
Proof. unfold run_ops. apply fold_left_app. Qed.

Lemma accepted_amounts_app (ops1 ops2 : list BillOp) (b : Bill.t) :
  accepted_amounts (ops1 ++ ops2) b
  = accepted_amounts ops1 b ++ accepted_amounts ops2 (run_ops ops1 b).
Proof.
  revert b. induction ops1 as [|op ops1 IH]; intros b; simpl; [done|].
  destruct op as [li| | | |i st|st]; simpl; try apply IH.
  destruct (snd (AddItem b li)); simpl; by rewrite IH.
Qed.

Lemma run_ops_total (ops : list BillOp) (b : Bill.t) :
  in_int64 (Bill.Total b) ->
  Bill.Total (run_ops ops b) = wrap64 (Bill.Total b + sumZ (accepted_amounts ops b)) /\
  map LineItem.Amount (Bill.Items (run_ops ops b))
  = map LineItem.Amount (Bill.Items b) ++ accepted_amounts ops b.
Proof.
  revert b. induction ops as [|op ops IH]; intros b Hb.
  - simpl. rewrite Z.add_0_r, app_nil_r. split; [|done]. symmetry. by apply wrap64_id.
  - pose proof (apply_op_effect op b) as Heff.
    change (run_ops (op :: ops) b) with (run_ops ops (apply_op op b)).
    destruct op as [li| | | |i st|st];
      try (destruct Heff as [Ht Hi]; simpl accepted_amounts;
           destruct (IH _ ltac:(by rewrite Ht)) as [-> ->]; by rewrite Ht, Hi).
    cbn [accepted_amounts apply_op] in *. destruct (snd (AddItem b li)).
    + rewrite Heff. by apply IH.
    + destruct Heff as [Ht Hi].
      destruct (IH (fst (AddItem b li))) as [-> ->].
      { rewrite Ht. apply wrap64_range. }
      rewrite Ht, Hi. unfold add64. split.
      * rewrite wrap64_add_l. simpl. f_equal. lia.
      * by rewrite <- app_assoc.
Qed.

(** C4, with the conditions the code needs.  Start from the bill the workflow creates and
    apply any history of writes.  The total is the sum of the amounts of the
    items [AddItem] accepted, reduced to [int64]; these are the amounts of the
    items the bill holds, in order, so later status changes do not alter them.
    When the sum fits in [int64] the total is the sum itself.  A write other
    than an accepted [AddItem] (BeginCharge, Cancel, Expire, a status change of
    an item or of the bill by charging, failing or refunding) leaves the total
    as it is.  If moreover every accepted amount is non-negative, the total
    after a longer history is at least the total after any prefix of it. *)
Theorem total_is_sum_of_accepted (billID : string) (cur : Currency)
    (ops1 ops2 : list BillOp) :
  let b0 := new_bill billID cur in
  let accepted := accepted_amounts (ops1 ++ ops2) b0 in
  let b1 := run_ops ops1 b0 in
  let b2 := run_ops (ops1 ++ ops2) b0 in
  Bill.Total b2 = wrap64 (sumZ accepted) /\
  map LineItem.Amount (Bill.Items b2) = accepted /\
  (in_int64 (sumZ accepted) -> Bill.Total b2 = sumZ accepted) /\
  (forall b op, (forall li, op <> OpAddItem li) ->
     Bill.Total (apply_op op b) = Bill.Total b) /\
  (forall b li, snd (AddItem b li) <> None ->
     Bill.Total (apply_op (OpAddItem li) b) = Bill.Total b) /\
  (Forall (fun z => 0 <= z) accepted -> in_int64 (sumZ accepted) ->
     Bill.Total b1 <= Bill.Total b2).
Proof.
  intros b0 accepted b1 b2.
  assert (Hb0 : in_int64 (Bill.Total b0)).
  { unfold in_int64, int64_min, int64_max. simpl. lia. }
  destruct (run_ops_total (ops1 ++ ops2) b0 Hb0) as [Ht2 Hi2].
  destruct (run_ops_total ops1 b0 Hb0) as [Ht1 _].
  simpl in Ht1, Ht2, Hi2. fold b1 in Ht1. fold b2 in Ht2, Hi2. fold accepted in Ht2, Hi2.
  split; [done|]. split; [done|]. split; [|split; [|split]].
  - intros Hfit. rewrite Ht2. by apply wrap64_id.
  - intros b op Hop. pose proof (apply_op_effect op b) as Heff.
    destruct op as [li| | | |i st|st]; try (by destruct Heff).
    by destruct (Hop li).
  - intros b li Hrej. pose proof (apply_op_effect (OpAddItem li) b) as Heff.
    simpl in Heff. destruct (snd (AddItem b li)); [|done]. simpl. by rewrite Heff.
  - intros Hnonneg Hfit. subst accepted.
    rewrite accepted_amounts_app in *. apply Forall_app in Hnonneg as [Hn1 Hn2].
    rewrite sumZ_app in *.
    pose proof (sumZ_nonneg _ Hn1) as H1. pose proof (sumZ_nonneg _ Hn2) as H2.
    rewrite Ht1, Ht2, !Z.add_0_l.
    rewrite (wrap64_id (sumZ (accepted_amounts ops1 b0) + _)) by done.
    rewrite wrap64_id; [lia|].
    unfold in_int64, int64_min, int64_max in *. lia.
Qed.

(** C4: without those two conditions the total is neither the sum nor
    monotone.  Two items with positive amounts, both accepted: the second add takes the total from 2^63-1 to -2^63, below the
    total before it and different from the sum of the two amounts.  And
    [AddItem] itself accepts a negative amount, after which the total is
    smaller than before. *)
Lemma total_not_monotone :
  let b0 := new_bill "b" USD in
  let big := item "a" "Book" int64_max in
  let one := item "c" "Pen" 1 in
  let neg := item "n" "Rebate" (-3) in
  (snd (AddItem b0 big) = None /\
   snd (AddItem (fst (AddItem b0 big)) one) = None /\
   Bill.Total (fst (AddItem b0 big)) = int64_max /\
   Bill.Total (fst (AddItem (fst (AddItem b0 big)) one)) = int64_min /\
   Bill.Total (fst (AddItem (fst (AddItem b0 big)) one))
     < Bill.Total (fst (AddItem b0 big)) /\
   Bill.Total (run_ops [OpAddItem big; OpAddItem one] b0)
     <> sumZ (accepted_amounts [OpAddItem big; OpAddItem one] b0)) /\
  (snd (AddItem (fst (AddItem b0 one)) neg) = None /\
   Bill.Total (fst (AddItem (fst (AddItem b0 one)) neg))
     < Bill.Total (fst (AddItem b0 one))).
Proof. vm_compute. repeat split; congruence. Qed.

(** ** The ledger *)

Lemma balance_insert (balances : gmap Currency Z) (c c' : Currency) (v : Z) :
  balance (<[c := v]> balances) c' = if decide (c = c') then v else balance balances c'.
Proof.
  unfold balance. rewrite lookup_insert. by destruct (decide (c = c')).
Qed.

(** The four ways a [Withdraw] call can end. *)
Lemma Withdraw_cases (ToUpper : string -> string) (balances : gmap Currency Z)
    (curr : string) (amount : Z) :
  (exists e, snd (Parse ToUpper curr) = Some e /\
     Withdraw ToUpper balances curr amount
     = (balances, Some {| Code := InvalidArgument; Message := e |}))
  \/
  (snd (Parse ToUpper curr) = None /\ amount <= 0 /\
   Withdraw ToUpper balances curr amount
   = (balances, Some {| Code := InvalidArgument; Message := "amount must be > 0" |}))
  \/
  (snd (Parse ToUpper curr) = None /\ 0 < amount /\
   balance balances (fst (Parse ToUpper curr)) < amount /\
   Withdraw ToUpper balances curr amount
   = (balances, Some {| Code := FailedPrecondition; Message := "insufficient funds" |}))
  \/
  (snd (Parse ToUpper curr) = None /\ 0 < amount /\
   amount <= balance balances (fst (Parse ToUpper curr)) /\
   Withdraw ToUpper balances curr amount
   = (<[fst (Parse ToUpper curr)
        := sub64 (balance balances (fst (Parse ToUpper curr))) amount]> balances, None)).
Proof.
  unfold Withdraw. destruct (Parse ToUpper curr) as [reqCur [e|]]; simpl.
  - left. by exists e.
  - right. destruct (Z.leb_spec amount 0) as [Hle|Hgt]; [by left|].
    right. destruct (Z.ltb_spec (balance balances reqCur) amount) as [Hlt|Hge].
    + by left.
    + by right.
Qed.

Lemma Withdraw_keeps (ToUpper : string -> string) (balances : gmap Currency Z)
    (curr : string) (amount : Z) :
  int64_ledger balances ->
  (forall cur, 0 <= balance balances cur) ->
  int64_ledger (fst (Withdraw ToUpper balances curr amount)) /\
  (forall cur, 0 <= balance (fst (Withdraw ToUpper balances curr amount)) cur).
Proof.
  intros Hrange Hnonneg.
  destruct (Withdraw_cases ToUpper balances curr amount)
    as [(e & _ & ->)|[(_ & _ & ->)|[(_ & _ & _ & ->)|(_ & Hpos & Hle & ->)]]];
    simpl; try done.
  set (c := fst (Parse ToUpper curr)) in *.
  assert (Hsub : sub64 (balance balances c) amount = balance balances c - amount).
  { apply wrap64_id. pose proof (Hrange c) as Hc.
    unfold in_int64, int64_min, int64_max in *. lia. }
  split; intros cur; rewrite balance_insert; destruct (decide (c = cur)); try done.
  - rewrite Hsub. pose proof (Hrange c) as Hc.
    unfold in_int64, int64_min, int64_max in *. lia.
  - rewrite Hsub. lia.
Qed.

(** C10. A [Withdraw] whose amount is not strictly positive, or whose amount
    exceeds the balance of the requested currency, returns an error and leaves
    the ledger as it was.  A withdrawal that succeeds lowers the balance of
    the requested currency by the amount, to a value that is not negative,
    and touches no other currency.  So on a ledger of non-negative [int64]
    balances no sequence of [Withdraw] calls makes a balance negative. *)
Theorem Withdraw_never_overdraws (ToUpper : string -> string)
    (balances : gmap Currency Z) (curr : string) (amount : Z) :
  (amount <= 0 ->
   exists e, Withdraw ToUpper balances curr amount = (balances, Some e)) /\
  (snd (Parse ToUpper curr) = None ->
   balance balances (fst (Parse ToUpper curr)) < amount ->
   exists e, Withdraw ToUpper balances curr amount = (balances, Some e)) /\
  (int64_ledger balances ->
   snd (Withdraw ToUpper balances curr amount) = None ->
   let after := fst (Withdraw ToUpper balances curr amount) in
   let cur := fst (Parse ToUpper curr) in
   balance after cur = balance balances cur - amount /\
   0 <= balance after cur /\
   forall other, other <> cur -> balance after other = balance balances other) /\
  (int64_ledger balances ->
   (forall cur, 0 <= balance balances cur) ->
   forall reqs cur, 0 <= balance (withdraw_all ToUpper reqs balances) cur).
Proof.
  split; [|split; [|split]].
  - intros Hle.
    destruct (Withdraw_cases ToUpper balances curr amount)
      as [(e & _ & ->)|[(_ & _ & ->)|[(_ & Hpos & _)|(_ & Hpos & _)]]];
      eauto; lia.
  - intros Hparse Hlt.
    destruct (Withdraw_cases ToUpper balances curr amount)
      as [(e & _ & ->)|[(_ & _ & ->)|[(_ & _ & _ & ->)|(_ & _ & Hle & _)]]];
      eauto; lia.
  - intros Hrange Hok.
    destruct (Withdraw_cases ToUpper balances curr amount)
      as [(e & _ & Hw)|[(_ & _ & Hw)|[(_ & _ & _ & Hw)|(_ & Hpos & Hle & Hw)]]];
      rewrite Hw in *; try discriminate.
    simpl. set (c := fst (Parse ToUpper curr)) in *.
    assert (Hsub : sub64 (balance balances c) amount = balance balances c - amount).
    { apply wrap64_id. pose proof (Hrange c) as Hc.
      unfold in_int64, int64_min, int64_max in *. lia. }
    rewrite !balance_insert, decide_True by done. rewrite Hsub.
    split; [done|]. split; [lia|].
    intros other Hne. rewrite balance_insert. by rewrite decide_False.
  - intros Hrange Hnonneg reqs. revert balances Hrange Hnonneg.
    induction reqs as [|[c a] reqs IH]; intros balances Hrange Hnonneg cur; simpl.
    + apply Hnonneg.
    + destruct (Withdraw_keeps ToUpper balances c a Hrange Hnonneg) as [Hr Hn].
      by apply IH.
Qed.

(** ** Remarks on the embedded code *)

(** The query handler reports the bill as it is. *)
Lemma QueryBill_snapshot (b : Bill.t) : QueryBill b = b.
Proof. by destruct b. Qed.

(** What the credit activity does to the ledger: it is refused for a zero
    amount and otherwise adds the amount to the balance of the currency. *)
Lemma CreditAccountActivity_effect (balances : gmap Currency Z) (amount : Z)
    (cur : Currency) :
  (amount = 0 ->
   exists e, CreditAccountActivity balances amount cur = (balances, Some e)) /\
  (amount <> 0 ->
   snd (CreditAccountActivity balances amount cur) = None /\
   balance (fst (CreditAccountActivity balances amount cur)) cur
   = add64 (balance balances cur) amount).
Proof.
  unfold CreditAccountActivity, AddBalance. split.
  - intros ->. simpl. eauto.
  - intros Hnz. destruct (Z.eqb_spec amount 0) as [Hz|_]; [done|]. simpl.
    split; [done|]. by rewrite balance_insert, decide_True.
Qed.

(** The resolution compares the number of failures with the number of items
    first: a bill in Charging without items, which the event loop never
    produces since [BeginCharge] wants a Pending item, would end Failed. *)
Example charging_without_items :
  let o := after_loop mock_executor fifo (Bill.with_status (new_bill "b" USD) BillCharging) in
  Bill.Status (final o) = BillFailed /\
  option_map err_type (result o) = Some "ChargeFailed".
Proof. split; reflexivity. Qed.

(** * The properties on the scenarios of the test suite *)

(** The four workflow scenarios, run under both schedulers. *)
Example scenario_settled :
  observe (BillWorkflow "bill-happy" USD None settled_evs mock_executor fifo)
  = Some (BillSettled, 2000, [("a1", ItemCharged); ("b2", ItemCharged)], None).
Proof. reflexivity. Qed.

Example scenario_partial_failure :
  observe (BillWorkflow "fail-bill" USD None partial_evs mock_executor lifo)
  = Some (BillCompensated, 150, [("ok", ItemRefunded); ("bad", ItemFailed)],
          Some ("ChargeCompensated", ["bad"])).
Proof. reflexivity. Qed.

Example scenario_all_fail :
  observe (BillWorkflow "fail-all-bill" USD None all_fail_evs mock_executor lifo)
  = Some (BillFailed, 300, [("a1", ItemFailed); ("b2", ItemFailed)],
          Some ("ChargeFailed", ["a1"; "b2"])).
Proof. reflexivity. Qed.

Example scenario_duplicate :
  observe (BillWorkflow "dup-bill" USD None
             [SigAddLineItem (item "dup" "Book" 123); SigAddLineItem (item "dup" "Book" 123);
              SigChargeBill] mock_executor fifo)
  = Some (BillSettled, 123, [("dup", ItemCharged)], None).
Proof. reflexivity. Qed.

Example scenario_messages :
  (match BillWorkflow "fail-bill" USD None partial_evs mock_executor fifo with
   | Finished _ o => option_map err_message (result o)
   | _ => None
   end = Some "refunded 1 items after 1 failures") /\
  (match BillWorkflow "fail-all-bill" USD None all_fail_evs mock_executor fifo with
   | Finished _ o => option_map err_message (result o)
   | _ => None
   end = Some "2 items failed: [a1 b2]").
Proof. split; vm_compute; reflexivity. Qed.

Lemma status_check (st : LineItemStatus) (items : list LineItem.t) :
  count_status st items = length items ->
  forall it, it ∈ items -> LineItem.Status it = st.
Proof. apply count_status_all. Qed.

Lemma status_absent_check (st : LineItemStatus) (items : list LineItem.t) :
  count_status st items = O ->
  forall it, it ∈ items -> LineItem.Status it <> st.
Proof. apply count_status_zero. Qed.

(** The partial-failure test: "ok" is charged, "bad" fails. *)
Lemma partial_failure_compensates_witness :
  let b := bill (loop_exit partial_evs) in
  Bill.Status b = BillCharging /\
  Bill.Status (final (after_loop mock_executor lifo b)) = BillCompensated /\
  exists e, result (after_loop mock_executor lifo b) = Some e /\
    err_type e = "ChargeCompensated" /\ err_details e = ["bad"].
Proof.
  intros b.
  assert (H1 : Bill.Status b = BillCharging) by reflexivity.
  assert (H2 : exists it, it ∈ charge_all mock_executor lifo (Bill.Items b)
                          /\ LineItem.Status it = ItemFailed).
  { exists (LineItem.mk "bad" "FAIL" 50 ItemFailed). split; [|reflexivity].
    apply list_elem_of_lookup. exists 1%nat. reflexivity. }
  assert (H3 : exists it, it ∈ charge_all mock_executor lifo (Bill.Items b)
                          /\ LineItem.Status it = ItemCharged).
  { exists (LineItem.mk "ok" "Book" 100 ItemCharged). split; [|reflexivity].
    apply list_elem_of_lookup. exists 0%nat. reflexivity. }
  destruct (partial_failure_compensates mock_executor lifo b H1 H2 H3)
    as (_ & _ & _ & _ & Hs & _ & e & He & Ht & _ & Hd).
  split; [exact H1|]. split; [exact Hs|].
  exists e. split; [exact He|]. split; [exact Ht|]. etrans; [exact Hd|reflexivity].
Defined.

(** The all-items-fail test. *)
Lemma all_failed_fails_witness :
  let b := bill (loop_exit all_fail_evs) in
  Bill.Status b = BillCharging /\
  Bill.Status (final (after_loop mock_executor fifo b)) = BillFailed /\
  (forall li, ExecRefund li ∉ activities (after_loop mock_executor fifo b)) /\
  exists e, result (after_loop mock_executor fifo b) = Some e /\
    err_type e = "ChargeFailed" /\ err_details e = ["a1"; "b2"].
Proof.
  intros b.
  assert (H1 : Bill.Status b = BillCharging) by reflexivity.
  assert (H2 : Bill.Items b <> []) by (vm_compute; discriminate).
  assert (H3 : forall it, it ∈ charge_all mock_executor fifo (Bill.Items b) ->
                          LineItem.Status it = ItemFailed).
  { apply status_check. reflexivity. }
  destruct (all_failed_fails mock_executor fifo b H1 H2 H3)
    as (_ & Hr & _ & Hs & _ & e & He & Ht & _ & _ & Hd & _).
  split; [exact H1|]. split; [exact Hs|]. split; [exact Hr|].
  exists e. split; [exact He|]. split; [exact Ht|]. etrans; [exact Hd|reflexivity].
Defined.

(** The settled test: two charges, then the credit of 2000 USD. *)
Lemma no_failure_settles_witness :
  let s := loop_exit settled_evs in
  Bill.Status (bill s) = BillCharging /\
  Bill.Status (final (after_loop mock_executor lifo (bill s))) = BillSettled /\
  activities (after_loop mock_executor lifo (bill s))
  = [ExecCharge (LineItem.mk "a1" "Book" 1500 ItemPending);
     ExecCharge (LineItem.mk "b2" "Pen" 500 ItemPending);
     ExecCredit 2000 USD].
Proof.
  intros s.
  assert (H1 : Bill.Status (bill s) = BillCharging) by reflexivity.
  assert (H2 : forall it, it ∈ charge_all mock_executor lifo (Bill.Items (bill s)) ->
                          LineItem.Status it <> ItemFailed).
  { apply status_absent_check. reflexivity. }
  destruct (no_failure_settles "bill" USD settled_evs mock_executor lifo H1 H2)
    as (Hs & _ & Ha & _).
  split; [exact H1|]. split; [exact Hs|]. etrans; [exact Ha|reflexivity].
Defined.

(** After the charge signal a ready timer and a cancel signal change nothing. *)
Lemma canceled_timer_never_expires_witness :
  let s := loop_exit settled_evs in
  (Bill.Status (bill s) = BillCharging \/ Bill.Status (bill s) = BillCanceled) /\
  timer_canceled s = true /\
  event_loop (settled_evs ++ [TimerReady; SigCancelBill]) (loop_init "bill" USD) = s /\
  Bill.Status (bill (event_loop [TimerReady] s)) <> BillExpired.
Proof.
  intros s.
  assert (H1 : Bill.Status (bill s) = BillCharging \/ Bill.Status (bill s) = BillCanceled)
    by (left; reflexivity).
  destruct (canceled_timer_never_expires "bill" USD settled_evs H1)
    as (Ht & _ & _ & Happ & Hmore & _).
  split; [exact H1|]. split; [exact Ht|]. split; [apply Happ|apply Hmore].
Defined.

(** The three cases of the AddItem table test. *)
Lemma AddItem_spec_witness :
  let b := new_bill "b" USD in
  let x := item "x" "Test" 100 in
  let b1 := fst (AddItem b x) in
  (Bill.Status b = BillOpen /\
   Bill.Items b1 = [LineItem.mk "x" "Test" 100 ItemPending] /\ Bill.Total b1 = 100) /\
  AddItem b1 x = (b1, Some (ErrDuplicateItem "x")) /\
  AddItem (Bill.with_status b1 BillCanceled) (item "y" "Y" 10)
  = (Bill.with_status b1 BillCanceled, Some ErrBillNotOpen).
Proof.
  intros b x b1. split; [|split].
  - destruct (AddItem_spec b x) as (_ & _ & Hok).
    destruct Hok as (_ & Hitems & _ & Htotal & _).
    + reflexivity.
    + intros it Hin. inversion Hin.
    + split; [reflexivity|]. split; [exact Hitems|].
      apply Htotal. vm_compute. split; discriminate.
  - destruct (AddItem_spec b1 x) as (_ & Hdup & _). apply Hdup.
    + reflexivity.
    + exists (LineItem.mk "x" "Test" 100 ItemPending). split; [left|reflexivity].
  - destruct (AddItem_spec (Bill.with_status b1 BillCanceled) (item "y" "Y" 10))
      as (Hclosed & _).
    apply Hclosed. vm_compute. discriminate.
Defined.

(** The cases of the BeginCharge table test. *)
Lemma BeginCharge_spec_witness :
  let b := new_bill "b" USD in
  let b1 := fst (AddItem b (item "x" "Test" 100)) in
  (BeginCharge b = (b, Some ErrNoPendingItems) /\
   Bill.Status (fst (BeginCharge b)) = BillOpen) /\
  BeginCharge b1 = (Bill.with_status b1 BillCharging, None) /\
  BeginCharge (Bill.with_status b1 BillSettled)
  = (Bill.with_status b1 BillSettled, Some ErrBillNotOpen).
Proof.
  intros b b1. split; [|split].
  - destruct (BeginCharge_spec b) as (_ & Hnone & _). apply Hnone.
    + reflexivity.
    + intros it Hin. inversion Hin.
  - destruct (BeginCharge_spec b1) as (_ & _ & Hok). apply Hok.
    + reflexivity.
    + exists (LineItem.mk "x" "Test" 100 ItemPending). split; [left|reflexivity].
  - destruct (BeginCharge_spec (Bill.with_status b1 BillSettled)) as (Hclosed & _).
    apply Hclosed. vm_compute. discriminate.
Defined.

(** Cancel on a Pending and a Charged item, and on a bill that is Charging. *)
Lemma Cancel_spec_witness :
  let p := LineItem.mk "p" "P" 10 ItemPending in
  let c := LineItem.mk "c" "C" 20 ItemCharged in
  let b := {| Bill.ID := "b"; Bill.Status := BillOpen; Bill.Cur := USD;
              Bill.Items := [p; c]; Bill.Total := 30 |} in
  (Bill.Status (fst (Cancel b)) = BillCanceled /\
   Bill.Items (fst (Cancel b)) !! 0%nat = Some (LineItem.with_status p ItemCanceled) /\
   Bill.Items (fst (Cancel b)) !! 1%nat = Some c /\
   Bill.Total (fst (Cancel b)) = 30) /\
  Cancel (Bill.with_status b BillCharging)
  = (Bill.with_status b BillCharging, Some ErrCannotCancel).
Proof.
  intros p c b. split.
  - destruct (Cancel_spec b) as (_ & Hopen).
    destruct Hopen as (_ & Hst & Htot & _ & _ & _ & Hpend & Hother); [reflexivity|].
    split; [exact Hst|]. split; [|split; [|exact Htot]].
    + apply Hpend; reflexivity.
    + apply Hother; [reflexivity|]. vm_compute. discriminate.
  - destruct (Cancel_spec (Bill.with_status b BillCharging)) as (Hclosed & _).
    apply Hclosed. vm_compute. discriminate.
Defined.

(** An item sent with status Refunded is stored Pending. *)
Lemma open_items_are_pending_witness :
  let li := LineItem.mk "x" "Test" 100 ItemRefunded in
  let s := loop_exit [SigAddLineItem li] in
  last (Bill.Items (fst (AddItem (new_bill "b" USD) li)))
    = Some (LineItem.mk "x" "Test" 100 ItemPending) /\
  Bill.Status (bill s) = BillOpen /\
  all_pending (Bill.Items (bill s)) /\
  Bill.Status (fst (BeginCharge (bill s))) = BillCharging /\
  all_pending (Bill.Items (fst (BeginCharge (bill s)))).
Proof.
  intros li s.
  destruct open_items_are_pending as (_ & Hlast & Hloop).
  destruct (Hloop "bill" USD [SigAddLineItem li]) as (Hopen & Hcharge & _).
  assert (H1 : Bill.Status (bill s) = BillOpen) by reflexivity.
  assert (H2 : snd (BeginCharge (bill s)) = None) by reflexivity.
  destruct (Hcharge H1 H2) as (Hst & _ & Hall).
  split; [apply Hlast; reflexivity|].
  split; [exact H1|]. split; [exact (Hopen H1)|]. split; [exact Hst|exact Hall].
Defined.

(** A history with a duplicate add, a failed and a refunded item. *)
Lemma total_is_sum_of_accepted_witness :
  let ops1 := [OpAddItem (item "a1" "Book" 1500)] in
  let ops2 := [OpAddItem (item "b2" "FAIL" 500); OpAddItem (item "a1" "Book" 1500);
               OpBeginCharge; OpSetItemStatus 0 ItemCharged; OpSetItemStatus 1 ItemFailed;
               OpSetItemStatus 0 ItemRefunded; OpSetStatus BillCompensated] in
  let b0 := new_bill "b" USD in
  accepted_amounts (ops1 ++ ops2) b0 = [1500; 500] /\
  Bill.Total (run_ops (ops1 ++ ops2) b0) = 2000 /\
  Bill.Total (run_ops ops1 b0) <= Bill.Total (run_ops (ops1 ++ ops2) b0).
Proof.
  intros ops1 ops2 b0.
  destruct (total_is_sum_of_accepted "b" USD ops1 ops2) as (_ & _ & Hsum & _ & _ & Hmono).
  assert (Hacc : accepted_amounts (ops1 ++ ops2) b0 = [1500; 500]) by reflexivity.
  assert (Hfit : in_int64 (sumZ (accepted_amounts (ops1 ++ ops2) b0))).
  { vm_compute. split; discriminate. }
  assert (Hpos : Forall (fun z => 0 <= z) (accepted_amounts (ops1 ++ ops2) b0)).
  { rewrite Hacc. repeat constructor; discriminate. }
  split; [exact Hacc|]. split; [exact (Hsum Hfit)|exact (Hmono Hpos Hfit)].
Defined.

Lemma balance_empty (cur : Currency) : balance ∅ cur = 0.
Proof. unfold balance. by rewrite lookup_empty. Qed.

(** Withdrawals from a ledger holding 200 GEL. *)
Lemma Withdraw_never_overdraws_witness :
  let ledger : gmap Currency Z := <[GEL := 200]> ∅ in
  (exists e, Withdraw upper_ascii ledger "gel" 0 = (ledger, Some e)) /\
  (exists e, Withdraw upper_ascii ledger "gel" 300 = (ledger, Some e)) /\
  balance (fst (Withdraw upper_ascii ledger "gel" 150)) GEL = 50 /\
  0 <= balance (withdraw_all upper_ascii [("gel", 150); ("GEL", 100); ("usd", 1)] ledger) GEL.
Proof.
  intros ledger.
  assert (Hrange : int64_ledger ledger).
  { intros cur. unfold ledger. rewrite balance_insert.
    destruct (decide (GEL = cur)); [|rewrite balance_empty];
      vm_compute; split; discriminate. }
  assert (Hnonneg : forall cur, 0 <= balance ledger cur).
  { intros cur. unfold ledger. rewrite balance_insert.
    destruct (decide (GEL = cur)); [|rewrite balance_empty]; vm_compute; discriminate. }
  split; [|split; [|split]].
  - destruct (Withdraw_never_overdraws upper_ascii ledger "gel" 0) as (Hle & _).
    apply Hle. vm_compute. discriminate.
  - destruct (Withdraw_never_overdraws upper_ascii ledger "gel" 300) as (_ & Hlt & _).
    apply Hlt; [reflexivity|]. vm_compute. reflexivity.
  - destruct (Withdraw_never_overdraws upper_ascii ledger "gel" 150) as (_ & _ & Hok & _).
    destruct (Hok Hrange) as (Hbal & _); [vm_compute; reflexivity|].
    etrans; [exact Hbal|]. vm_compute. reflexivity.
  - destruct (Withdraw_never_overdraws upper_ascii ledger "gel" 0) as (_ & _ & _ & Hall).
    apply (Hall Hrange Hnonneg).
Defined.

(** * Further properties of the aggregate *)

Lemma cancel_item_key (it : LineItem.t) : item_key (cancel_item it) = item_key it.
Proof. unfold cancel_item. by destruct (String.eqb _ _). Qed.

Lemma cancel_item_not_pending (it : LineItem.t) :
  LineItem.Status (cancel_item it) <> ItemPending.
Proof.
  unfold cancel_item.
  destruct (String.eqb_spec (LineItem.Status it) ItemPending) as [Hp|Hp]; [|done].
  simpl. clash.
Qed.

Lemma cancel_pending_keys (items : list LineItem.t) :
  map item_key (cancel_pending items) = map item_key items.
Proof.
  rewrite cancel_pending_map, <- list_fmap_compose. apply list_fmap_ext.
  intros i it _. apply cancel_item_key.
Qed.

Lemma set_item_status_keys (i : nat) (st : LineItemStatus) (items : list LineItem.t) :
  map item_key (set_item_status i st items) = map item_key items.
Proof.
  unfold set_item_status. destruct (items !! i) as [it|] eqn:Hi; [|done].
  rewrite list_fmap_insert. apply list_insert_id.
  by rewrite list_lookup_fmap, Hi.
Qed.

Lemma keys_ids (items items' : list LineItem.t) :
  map item_key items' = map item_key items ->
  map LineItem.ID items' = map LineItem.ID items.
Proof.
  intros Hk.
  assert (Hid : forall l, map LineItem.ID l = map (fun k => fst (fst k)) (map item_key l)).
  { intros l. by rewrite <- list_fmap_compose. }
  by rewrite (Hid items'), (Hid items), Hk.
Qed.

Lemma keys_amounts (items items' : list LineItem.t) :
  map item_key items' = map item_key items ->
  map LineItem.Amount items' = map LineItem.Amount items.
Proof.
  intros Hk.
  assert (Ha : forall l, map LineItem.Amount l = map snd (map item_key l)).
  { intros l. by rewrite <- list_fmap_compose. }
  by rewrite (Ha items'), (Ha items), Hk.
Qed.

Lemma count_status_filter (st : LineItemStatus) (items : list LineItem.t) :
  count_status st items = length (filter (fun it => LineItem.Status it = st) items).
Proof.
  by rewrite <- (launch_from_length 0), <- (launch_from_snd 0), length_fmap.
Qed.

Lemma count_pending_canceled (items : list LineItem.t) :
  count_status ItemPending (map cancel_item items) = O.
Proof.
  apply count_status_zero. intros it Hin.
  apply list_elem_of_fmap in Hin as (x & -> & _). apply cancel_item_not_pending.
Qed.

(** X1. [Expire] asks nothing of the bill: whatever its status and however
    many items it holds, the status becomes Expired, every Pending item
    becomes Canceled, every other item stays the same item, and the number
    of items, their order, the total, the identifier and the currency are
    unchanged. *)
Theorem Expire_spec (b : Bill.t) :
  Bill.Status (Expire b) = BillExpired /\
  Bill.Total (Expire b) = Bill.Total b /\
  Bill.ID (Expire b) = Bill.ID b /\
  Bill.Cur (Expire b) = Bill.Cur b /\
  length (Bill.Items (Expire b)) = length (Bill.Items b) /\
  map item_key (Bill.Items (Expire b)) = map item_key (Bill.Items b) /\
  (forall i it, Bill.Items b !! i = Some it ->
     LineItem.Status it = ItemPending ->
     Bill.Items (Expire b) !! i = Some (LineItem.with_status it ItemCanceled)) /\
  (forall i it, Bill.Items b !! i = Some it ->
     LineItem.Status it <> ItemPending ->
     Bill.Items (Expire b) !! i = Some it).
Proof.
  unfold Expire. simpl. repeat split.
  - by rewrite cancel_pending_map, length_map.
  - apply cancel_pending_keys.
  - intros i it Hi Hp. rewrite cancel_pending_map, list_lookup_fmap, Hi. simpl.
    unfold cancel_item. by rewrite Hp.
  - intros i it Hi Hnp. rewrite cancel_pending_map, list_lookup_fmap, Hi. simpl.
    unfold cancel_item. by rewrite (status_eqb_false _ _ Hnp).
Qed.

(** X2. [PendingCount] is the number of items whose status is Pending, so at
    most the number of items; after [Expire], and after a [Cancel] that
    returned nil, it is zero, and a [BeginCharge] on the result is refused
    with [ErrBillNotOpen] without changing it. *)
Theorem no_pending_after_closing (b : Bill.t) :
  PendingCount b
    = length (filter (fun it => LineItem.Status it = ItemPending) (Bill.Items b)) /\
  (PendingCount b <= length (Bill.Items b))%nat /\
  PendingCount (Expire b) = O /\
  BeginCharge (Expire b) = (Expire b, Some ErrBillNotOpen) /\
  (snd (Cancel b) = None ->
   PendingCount (fst (Cancel b)) = O /\
   BeginCharge (fst (Cancel b)) = (fst (Cancel b), Some ErrBillNotOpen)).
Proof.
  unfold PendingCount. split; [apply count_status_filter|].
  split; [apply count_status_le_length|].
  split; [|split].
  - unfold Expire. simpl. rewrite cancel_pending_map. apply count_pending_canceled.
  - reflexivity.
  - unfold Cancel. destruct (negb _); [done|]. intros _. simpl. split; [|reflexivity].
    rewrite cancel_pending_map. apply count_pending_canceled.
Qed.

Lemma apply_op_keys (op : BillOp) (b : Bill.t) :
  match op with
  | OpAddItem li =>
      match snd (AddItem b li) with
      | None =>
          map item_key (Bill.Items (apply_op op b))
          = map item_key (Bill.Items b) ++ [item_key li] /\
          LineItem.ID li ∉ map LineItem.ID (Bill.Items b)
      | Some _ => apply_op op b = b
      end
  | _ => map item_key (Bill.Items (apply_op op b)) = map item_key (Bill.Items b)
  end.
Proof.
  destruct op as [li| | | |i st|st]; simpl.
  - unfold AddItem. destruct (negb _); [done|].
    destruct (has_item_id _ _) eqn:Hhas; [done|]. simpl.
    split; [by rewrite fmap_app|].
    intros Hin. apply list_elem_of_fmap in Hin as (it & Hid & Hin).
    by apply (proj1 (has_item_id_false _ _) Hhas it).
  - unfold BeginCharge. destruct (negb _); [done|]. by destruct (Nat.eqb _ _).
  - unfold Cancel. destruct (negb _); [done|]. simpl. apply cancel_pending_keys.
  - apply cancel_pending_keys.
  - apply set_item_status_keys.
  - done.
Qed.

Lemma apply_op_unique (op : BillOp) (b : Bill.t) :
  unique_ids (Bill.Items b) -> unique_ids (Bill.Items (apply_op op b)).
Proof.
  unfold unique_ids. intros Hnd. pose proof (apply_op_keys op b) as Hk.
  destruct op as [li| | | |i st|st];
    try (by rewrite (keys_ids _ _ Hk)).
  destruct (snd (AddItem b li)); [by rewrite Hk|].
  destruct Hk as [Hk Hfresh].
  assert (Hids : map LineItem.ID (Bill.Items (apply_op (OpAddItem li) b))
                 = map LineItem.ID (Bill.Items b) ++ [LineItem.ID li]).
  { transitivity (map (fun k : string * string * Z => fst (fst k))
                    (map item_key (Bill.Items (apply_op (OpAddItem li) b)))).
    - by rewrite <- list_fmap_compose.
    - rewrite Hk, fmap_app, <- list_fmap_compose. done. }
  rewrite Hids. apply NoDup_app. split; [done|]. split.
  - intros x Hx Hin. apply list_elem_of_singleton in Hin. by subst.
  - apply NoDup_singleton.
Qed.

(** X3. Item identifiers stay pairwise distinct: if they are distinct in a
    bill they are distinct after any history of writes, so in every bill
    built from the empty one; a second [AddItem] with an identifier already
    held is what keeps it so. *)
Theorem history_keeps_ids_unique (ops : list BillOp) (b : Bill.t) :
  unique_ids (Bill.Items b) -> unique_ids (Bill.Items (run_ops ops b)).
Proof.
  revert b. induction ops as [|op ops IH]; intros b Hb; [done|].
  change (run_ops (op :: ops) b) with (run_ops ops (apply_op op b)).
  apply IH. by apply apply_op_unique.
Qed.

(** X4. Items are never removed, reordered or rewritten apart from their
    status: after any history of writes the identifiers, names and amounts
    of the items the bill held come first, unchanged and in order, followed
    by the identifiers, names and amounts of the arguments [AddItem]
    accepted, in the order they were accepted; the amounts among them are the
    accepted amounts. *)
Theorem history_only_appends (ops : list BillOp) (b : Bill.t) :
  map item_key (Bill.Items (run_ops ops b))
  = map item_key (Bill.Items b) ++ accepted_keys ops b /\
  map snd (accepted_keys ops b) = accepted_amounts ops b /\
  length (Bill.Items (run_ops ops b))
  = (length (Bill.Items b) + length (accepted_keys ops b))%nat.
Proof.
  assert (Hmain : forall b,
            map item_key (Bill.Items (run_ops ops b))
            = map item_key (Bill.Items b) ++ accepted_keys ops b /\
            map snd (accepted_keys ops b) = accepted_amounts ops b).
  { clear b. induction ops as [|op ops IH]; intros b.
    - simpl. by rewrite app_nil_r.
    - change (run_ops (op :: ops) b) with (run_ops ops (apply_op op b)).
      destruct (IH (apply_op op b)) as (Hitems & Hamounts).
      pose proof (apply_op_keys op b) as Hk.
      destruct op as [li| | | |i st|st];
        try (cbn [accepted_keys accepted_amounts]; by rewrite Hitems, Hk).
      cbn [accepted_keys accepted_amounts apply_op] in *.
      destruct (snd (AddItem b li)).
      + by rewrite Hitems, Hamounts, Hk.
      + destruct Hk as [Hk _]. split.
        * by rewrite Hitems, Hk, <- app_assoc.
        * simpl. by rewrite Hamounts. }
  destruct (Hmain b) as [Hitems Hamounts]. split; [done|]. split; [done|].
  rewrite <- (length_map item_key (Bill.Items (run_ops ops b))), Hitems.
  by rewrite length_app, length_map.
Qed.

(** * Further properties of the workflow *)

Lemma all_status_intro (st : LineItemStatus) (items : list LineItem.t) :
  (forall it, it ∈ items -> LineItem.Status it = st) -> all_status st items.
Proof.
  intros Hall. apply Forall_lookup. intros i it Hi.
  apply Hall. by apply list_elem_of_lookup_2 with i.
Qed.

Lemma all_status_elem (st : LineItemStatus) (items : list LineItem.t) (it : LineItem.t) :
  all_status st items -> it ∈ items -> LineItem.Status it = st.
Proof.
  intros Hall Hin. apply list_elem_of_lookup in Hin as [i Hi].
  exact (Forall_lookup_1 _ _ _ _ Hall Hi).
Qed.

Lemma imap_keys (f : nat -> LineItem.t -> LineItem.t) (items : list LineItem.t) :
  (forall i it, item_key (f i it) = item_key it) ->
  map item_key (imap f items) = map item_key items.
Proof.
  intros Hf. apply list_eq. intros i.
  rewrite !list_lookup_fmap, list_lookup_imap.
  destruct (items !! i) as [it|]; simpl; [|done]. by rewrite Hf.
Qed.

Lemma charged_item_key (ex : Executor) (i : nat) (it : LineItem.t) :
  item_key (charged_item ex i it) = item_key it.
Proof. unfold charged_item. by destruct (String.eqb _ _). Qed.

Lemma refunded_item_key (it : LineItem.t) : item_key (refunded_item it) = item_key it.
Proof. unfold refunded_item. by destruct (String.eqb _ _). Qed.

Lemma refunded_keys (items : list LineItem.t) :
  map item_key (map refunded_item items) = map item_key items.
Proof.
  rewrite <- list_fmap_compose. apply list_fmap_ext. intros i it _.
  apply refunded_item_key.
Qed.

(** The resolution writes statuses only. *)
Lemma after_loop_frame (ex : Executor) (sched : Scheduler) (b : Bill.t) :
  map item_key (Bill.Items (final (after_loop ex sched b))) = map item_key (Bill.Items b) /\
  Bill.Total (final (after_loop ex sched b)) = Bill.Total b /\
  Bill.ID (final (after_loop ex sched b)) = Bill.ID b /\
  Bill.Cur (final (after_loop ex sched b)) = Bill.Cur b.
Proof.
  unfold after_loop. destruct (_ || _); [done|].
  destruct (String.eqb _ _); [|done].
  unfold charging. rewrite refund_all_map, !charge_all_imap. simpl.
  pose proof (imap_keys (charged_item ex) (Bill.Items b) (charged_item_key ex)) as Hk.
  destruct (Nat.eqb _ _); [done|]. destruct (Nat.eqb _ _); [done|].
  simpl. by rewrite refunded_keys.
Qed.

Lemma count_status_pos (st : LineItemStatus) (items : list LineItem.t) :
  count_status st items <> O ->
  exists it, it ∈ items /\ LineItem.Status it = st.
Proof.
  induction items as [|a items IH]; simpl; [done|].
  destruct (String.eqb_spec (LineItem.Status a) st) as [Heq|Hne].
  - intros _. exists a. split; [left|done].
  - intros Hc. destruct (IH Hc) as (it & Hin & Hs). exists it. split; [by right|done].
Qed.

Lemma count_status_short (st : LineItemStatus) (items : list LineItem.t) :
  count_status st items <> length items ->
  exists it, it ∈ items /\ LineItem.Status it <> st.
Proof.
  induction items as [|a items IH]; simpl; [done|].
  destruct (String.eqb_spec (LineItem.Status a) st) as [Heq|Hne].
  - intros Hc. destruct IH as (it & Hin & Hs); [lia|].
    exists it. split; [by right|done].
  - intros _. exists a. split; [left|done].
Qed.

Lemma charged_elem (ex : Executor) (items : list LineItem.t) (it : LineItem.t) :
  all_pending items ->
  it ∈ imap (charged_item ex) items ->
  exists i x, items !! i = Some x /\ LineItem.Status x = ItemPending /\
    it = LineItem.with_status x (charge_status ex (i, x)) /\
    (LineItem.Status it = ItemFailed /\ charge_err ex i x = true \/
     LineItem.Status it = ItemCharged /\ charge_err ex i x = false).
Proof.
  intros Hpend Hin. apply list_elem_of_lookup in Hin as [i Hi].
  rewrite list_lookup_imap in Hi.
  destruct (items !! i) as [x|] eqn:Hx; [|done]. simpl in Hi. injection Hi as <-.
  pose proof (all_pending_lookup _ _ _ Hpend Hx) as Hp.
  exists i, x. split; [done|]. split; [done|].
  unfold charged_item, charge_status. rewrite Hp. simpl. split; [done|].
  destruct (charge_err ex i x); [by left|by right].
Qed.

(** The three ways the Charging arm ends on a bill whose items are all
    Pending: everything failed, nothing failed, or some of each. *)
Lemma charging_cases (ex : Executor) (sched : Scheduler) (b : Bill.t) :
  Bill.Status b = BillCharging ->
  all_pending (Bill.Items b) ->
  Bill.Items b <> [] ->
  let charged := imap (charged_item ex) (Bill.Items b) in
  let o := after_loop ex sched b in
  (all_status ItemFailed charged /\
   Bill.Status (final o) = BillFailed /\ Bill.Items (final o) = charged /\
   activities o = map ExecCharge (Bill.Items b) /\
   exists e, result o = Some e /\ err_type e = "ChargeFailed" /\
     err_non_retryable e = false /\ err_details e = map LineItem.ID charged)
  \/
  (all_status ItemCharged charged /\
   Bill.Status (final o) = BillSettled /\ Bill.Items (final o) = charged /\
   activities o = map ExecCharge (Bill.Items b)
                  ++ [ExecCredit (Bill.Total b) (Bill.Cur b)] /\
   result o = None)
  \/
  ((exists it, it ∈ charged /\ LineItem.Status it = ItemFailed) /\
   (exists it, it ∈ charged /\ LineItem.Status it = ItemCharged) /\
   Bill.Status (final o) = BillCompensated /\
   Bill.Items (final o) = map refunded_item charged /\
   activities o = map ExecCharge (Bill.Items b)
                  ++ map ExecRefund
                       (filter (fun it => LineItem.Status it = ItemCharged) charged) /\
   exists e, result o = Some e /\ err_type e = "ChargeCompensated" /\
     err_non_retryable e = false /\ err_details e = failed_ids charged).
Proof.
  intros Hst Hpend Hne charged o. subst o.
  rewrite after_loop_charging by done. unfold charging.
  rewrite refund_all_map, !charge_all_imap. fold charged. simpl.
  rewrite !launch_activities, (filter_status_all ItemPending (Bill.Items b))
    by (intros it Hin; by apply (all_pending_elem (Bill.Items b))).
  destruct (Nat.eqb_spec (count_status ItemFailed charged) (length charged)) as [Hall|Hnall].
  { left. simpl. split; [|repeat split; eauto].
    apply all_status_intro. by apply count_status_all. }
  destruct (Nat.eqb_spec (count_status ItemFailed charged) 0) as [Hzero|Hnzero].
  { right. left. simpl. split; [|done].
    apply all_status_intro. intros it Hin.
    pose proof (proj1 (count_status_zero _ _) Hzero it Hin) as Hnf.
    destruct (charged_elem ex _ it Hpend Hin) as (i & x & _ & _ & _ & [[Hf _]|[Hc _]]);
      [done|exact Hc]. }
  right. right. simpl.
  destruct (count_status_pos _ _ Hnzero) as (f & Hf & Hfs).
  destruct (count_status_short _ _ Hnall) as (c & Hc & Hcs).
  split; [by exists f|]. split.
  { exists c. split; [done|].
    destruct (charged_elem ex _ c Hpend Hc) as (i & x & _ & _ & _ & [[Hx _]|[Hx _]]);
      [done|exact Hx]. }
  repeat split. eexists. repeat split. simpl. apply failed_ids_refunded.
Qed.

(** ** The loop as a history of writes *)

Lemma select_bill (ev : Stimulus) (s : LoopState) :
  bill (select ev s) = apply_op (stimulus_op ev) (bill s).
Proof.
  destruct ev as [li| | |]; simpl.
  - unfold on_add. by destruct (AddItem (bill s) li).
  - unfold on_charge. by destruct (BeginCharge (bill s)) as [b [e|]].
  - unfold on_cancel. by destruct (Cancel (bill s)) as [b [e|]].
  - done.
Qed.

Lemma event_loop_prefix (evs : list Stimulus) (s : LoopState) :
  exists n, bill (event_loop evs s) = run_ops (map stimulus_op (take n evs)) (bill s).
Proof.
  revert s. induction evs as [|ev evs IH]; intros s; simpl.
  - by exists O.
  - destruct (String.eqb (Bill.Status (bill s)) BillOpen).
    + destruct (IH (select ev s)) as [n Hn]. exists (S n).
      rewrite Hn, select_bill. done.
    + by exists O.
Qed.

Lemma run_ops_unique_ids (ops : list BillOp) (b : Bill.t) :
  unique_ids (Bill.Items b) -> unique_ids (Bill.Items (run_ops ops b)).
Proof.
  revert b. induction ops as [|op ops IH]; intros b Hb; [done|].
  change (run_ops (op :: ops) b) with (run_ops ops (apply_op op b)).
  apply IH. by apply apply_op_unique.
Qed.

Lemma run_ops_total_ok (ops : list BillOp) (billID : string) (cur : Currency) :
  total_ok (run_ops ops (new_bill billID cur)).
Proof.
  destruct (run_ops_total ops (new_bill billID cur)) as [Ht Hi].
  { unfold in_int64, int64_min, int64_max. simpl. lia. }
  unfold total_ok. rewrite Ht, Hi. simpl. f_equal.
Qed.

(** The books of the bill the loop holds. *)
Lemma event_loop_books (billID : string) (cur : Currency) (evs : list Stimulus) :
  total_ok (bill (event_loop evs (loop_init billID cur))) /\
  unique_ids (Bill.Items (bill (event_loop evs (loop_init billID cur)))).
Proof.
  destruct (event_loop_prefix evs (loop_init billID cur)) as [n ->]. simpl. split.
  - apply run_ops_total_ok.
  - apply run_ops_unique_ids. constructor.
Qed.

Lemma all_pending_canceled (items : list LineItem.t) :
  all_pending items -> all_status ItemCanceled (cancel_pending items).
Proof.
  intros Hpend. rewrite cancel_pending_map. apply all_status_intro.
  intros it Hin. apply list_elem_of_fmap in Hin as (x & -> & Hx).
  unfold cancel_item. by rewrite (all_pending_elem _ _ Hpend Hx).
Qed.

Lemma select_closed_items (s : LoopState) (ev : Stimulus) :
  Bill.Status (bill s) = BillOpen ->
  all_pending (Bill.Items (bill s)) ->
  Bill.Status (bill (select ev s)) = BillCanceled \/
  Bill.Status (bill (select ev s)) = BillExpired ->
  all_status ItemCanceled (Bill.Items (bill (select ev s))).
Proof.
  intros Hopen Hpend. destruct ev as [li| | |]; simpl.
  - unfold on_add, AddItem. rewrite Hopen. simpl.
    destruct (has_item_id _ _); simpl; rewrite ?Hopen; intros [H|H]; clash.
  - unfold on_charge, BeginCharge. rewrite Hopen. simpl.
    destruct (Nat.eqb _ _); simpl; rewrite ?Hopen; intros [H|H]; clash.
  - unfold on_cancel, Cancel. rewrite Hopen. simpl. intros _.
    by apply all_pending_canceled.
  - intros _. by apply all_pending_canceled.
Qed.

Lemma event_loop_closed_items (billID : string) (cur : Currency) (evs : list Stimulus) :
  let s := event_loop evs (loop_init billID cur) in
  Bill.Status (bill s) = BillCanceled \/ Bill.Status (bill s) = BillExpired ->
  all_status ItemCanceled (Bill.Items (bill s)).
Proof.
  apply (event_loop_preserves
    (fun s => loop_inv s /\
              (Bill.Status (bill s) = BillCanceled \/ Bill.Status (bill s) = BillExpired ->
               all_status ItemCanceled (Bill.Items (bill s))))).
  - intros s ev Hopen [Hinv _]. split; [by apply select_inv|].
    apply select_closed_items; [done|].
    destruct Hinv as [H|[H|[H|H]]]; [by destruct H as (_ & H & _)|destruct H as (H & _); clash..].
  - split; [apply loop_init_inv|]. simpl. intros [H|H]; clash.
Qed.

Lemma run_finished (billID : string) (cur : Currency) (evs : list Stimulus)
    (ex : Executor) (sched : Scheduler) (s : LoopState) (o : Outcome) :
  BillWorkflow billID cur None evs ex sched = Finished s o ->
  s = event_loop evs (loop_init billID cur) /\
  o = after_loop ex sched (bill s) /\
  Bill.Status (bill s) <> BillOpen.
Proof.
  unfold BillWorkflow.
  destruct (String.eqb_spec
              (Bill.Status (bill (event_loop evs (loop_init billID cur)))) BillOpen)
    as [Hopen|Hclosed]; [done|].
  intros [= <- <-]. done.
Qed.

(** How a finished run left the loop. *)
Lemma run_exit (billID : string) (cur : Currency) (evs : list Stimulus) :
  let s := event_loop evs (loop_init billID cur) in
  Bill.Status (bill s) <> BillOpen ->
  (Bill.Status (bill s) = BillCharging /\ all_pending (Bill.Items (bill s)) /\
   Bill.Items (bill s) <> [])
  \/
  ((Bill.Status (bill s) = BillCanceled \/ Bill.Status (bill s) = BillExpired) /\
   all_status ItemCanceled (Bill.Items (bill s))).
Proof.
  intros s Hclosed.
  pose proof (event_loop_closed_items billID cur evs) as Hitems. fold s in Hitems.
  pose proof (event_loop_inv billID cur evs) as Hinv. fold s in Hinv.
  destruct Hinv as [H|[H|[H|H]]].
  - by destruct H as (H & _).
  - left. by destruct H as (H1 & H2 & H3 & _).
  - right. destruct H as (H & _). split; [by left|]. apply Hitems. by left.
  - right. destruct H as (H & _). split; [by right|]. apply Hitems. by right.
Qed.

Lemma after_loop_closed (ex : Executor) (sched : Scheduler) (b : Bill.t) :
  Bill.Status b = BillCanceled \/ Bill.Status b = BillExpired ->
  after_loop ex sched b = {| final := b; result := None; activities := [] |}.
Proof. intros [Hst|Hst]; unfold after_loop; by rewrite Hst. Qed.

(** ** Runs of the workflow *)

(** X5. The bill held by the event loop is the result of applying, in
    order, the writes of the first [n] stimuli to the bill it started with,
    where [n] is fixed by the bill itself: before each of these writes the
    bill was Open, and if any stimulus is left over the bill is no longer
    Open.  So every stimulus selected met an Open bill, and nothing that
    arrives once the bill has left Open is applied. *)
Theorem event_loop_is_history (evs : list Stimulus) (s : LoopState) :
  exists n,
    (n <= length evs)%nat /\
    bill (event_loop evs s) = run_ops (map stimulus_op (take n evs)) (bill s) /\
    (forall k, (k < n)%nat ->
       Bill.Status (run_ops (map stimulus_op (take k evs)) (bill s)) = BillOpen) /\
    ((n < length evs)%nat ->
     Bill.Status (run_ops (map stimulus_op (take n evs)) (bill s)) <> BillOpen) /\
    (Bill.Status (bill (event_loop evs s)) = BillOpen -> n = length evs).
Proof.
  revert s. induction evs as [|ev evs IH]; intros s; simpl.
  - exists O. split; [done|]. split; [done|]. split; [intros k Hk; lia|].
    split; [intros H; lia|done].
  - destruct (String.eqb_spec (Bill.Status (bill s)) BillOpen) as [Hopen|Hclosed].
    + destruct (IH (select ev s)) as (n & Hle & Hn & Hbefore & Hafter & Hall).
      rewrite select_bill in Hn, Hbefore, Hafter.
      exists (S n). split; [lia|]. split; [exact Hn|]. split; [|split].
      * intros k Hk. destruct k as [|k]; [exact Hopen|]. apply Hbefore. lia.
      * intros Hlt. apply Hafter. lia.
      * intros H. by rewrite (Hall H).
    + exists O. split; [lia|]. split; [done|]. split; [intros k Hk; lia|].
      split; [by intros _|]. intros H. done.
Qed.

(** X6. When a run finishes, the bill it leaves has the identifier and the
    currency the workflow was started with, holds the same items (same
    identifiers, names, amounts, order) and the same total as when the loop
    ended, its identifiers are pairwise distinct and its total is the [int64]
    sum of the amounts of its items. *)
Theorem finished_bill_books (billID : string) (cur : Currency) (evs : list Stimulus)
    (ex : Executor) (sched : Scheduler) (s : LoopState) (o : Outcome) :
  BillWorkflow billID cur None evs ex sched = Finished s o ->
  Bill.ID (final o) = billID /\
  Bill.Cur (final o) = cur /\
  map item_key (Bill.Items (final o)) = map item_key (Bill.Items (bill s)) /\
  Bill.Total (final o) = Bill.Total (bill s) /\
  unique_ids (Bill.Items (final o)) /\
  total_ok (final o).
Proof.
  intros Hrun. destruct (run_finished _ _ _ _ _ _ _ Hrun) as (-> & -> & _).
  destruct (after_loop_frame ex sched (bill (event_loop evs (loop_init billID cur))))
    as (Hk & Ht & Hid & Hcur).
  destruct (event_loop_identity billID cur evs) as [Hid0 Hcur0].
  destruct (event_loop_books billID cur evs) as [Htot Huniq].
  split; [congruence|]. split; [congruence|]. split; [done|]. split; [done|]. split.
  - unfold unique_ids. by rewrite (keys_ids _ _ Hk).
  - unfold total_ok. by rewrite Ht, (keys_amounts _ _ Hk).
Qed.

(** X7. A finished run ends in exactly one of five ways.  The loop was left
    by cancel or expiry: the bill is returned as the loop left it, the result
    is nil and no activity was executed.  Or it was left by a charge and the
    bill ends Settled with a nil result, Failed with a ChargeFailed error, or
    Compensated with a ChargeCompensated error.  The error is never the
    non-retryable "invalid state" one: that arm of the switch is dead. *)
Theorem outcome_classification (billID : string) (cur : Currency) (evs : list Stimulus)
    (ex : Executor) (sched : Scheduler) (s : LoopState) (o : Outcome) :
  BillWorkflow billID cur None evs ex sched = Finished s o ->
  ((Bill.Status (bill s) = BillCanceled \/ Bill.Status (bill s) = BillExpired) /\
   final o = bill s /\ result o = None /\ activities o = [])
  \/
  (Bill.Status (bill s) = BillCharging /\
   ((Bill.Status (final o) = BillSettled /\ result o = None) \/
    (Bill.Status (final o) = BillFailed /\
     exists e, result o = Some e /\ err_type e = "ChargeFailed" /\
               err_non_retryable e = false) \/
    (Bill.Status (final o) = BillCompensated /\
     exists e, result o = Some e /\ err_type e = "ChargeCompensated" /\
               err_non_retryable e = false))).
Proof.
  intros Hrun. destruct (run_finished _ _ _ _ _ _ _ Hrun) as (-> & -> & Hclosed).
  destruct (run_exit billID cur evs Hclosed) as [(Hst & Hpend & Hne)|[Hst _]].
  - right. split; [done|].
    destruct (charging_cases ex sched _ Hst Hpend Hne)
      as [(_ & Hs & _ & _ & e & He & Ht & Hr & _)
         |[(_ & Hs & _ & _ & Hr)
          |(_ & _ & Hs & _ & _ & e & He & Ht & Hr & _)]].
    + right. left. split; [done|]. by exists e.
    + left. done.
    + right. right. split; [done|]. by exists e.
  - left. split; [done|]. by rewrite after_loop_closed.
Qed.

(** X8. No item is left Pending or half-settled when a run finishes: in a
    Canceled or Expired bill every item is Canceled, in a Settled bill every
    item is Charged, in a Failed bill every item is Failed, and in a
    Compensated bill every item is Failed or Refunded, with at least one of
    each. *)
Theorem final_item_statuses (billID : string) (cur : Currency) (evs : list Stimulus)
    (ex : Executor) (sched : Scheduler) (s : LoopState) (o : Outcome) :
  BillWorkflow billID cur None evs ex sched = Finished s o ->
  (Bill.Status (final o) = BillCanceled \/ Bill.Status (final o) = BillExpired ->
   all_status ItemCanceled (Bill.Items (final o))) /\
  (Bill.Status (final o) = BillSettled -> all_status ItemCharged (Bill.Items (final o))) /\
  (Bill.Status (final o) = BillFailed -> all_status ItemFailed (Bill.Items (final o))) /\
  (Bill.Status (final o) = BillCompensated ->
   Forall (fun it => LineItem.Status it = ItemFailed \/ LineItem.Status it = ItemRefunded)
     (Bill.Items (final o)) /\
   (exists it, it ∈ Bill.Items (final o) /\ LineItem.Status it = ItemFailed) /\
   (exists it, it ∈ Bill.Items (final o) /\ LineItem.Status it = ItemRefunded)) /\
  Forall (fun it => LineItem.Status it <> ItemPending /\ LineItem.Status it <> EmptyString)
    (Bill.Items (final o)).
Proof.
  intros Hrun. destruct (run_finished _ _ _ _ _ _ _ Hrun) as (-> & -> & Hclosed).
  set (s := event_loop evs (loop_init billID cur)) in *.
  destruct (run_exit billID cur evs Hclosed) as [(Hst & Hpend & Hne)|[Hst Hitems]];
    fold s in Hst.
  - fold s in Hpend, Hne.
    destruct (charging_cases ex sched _ Hst Hpend Hne)
      as [(Hall & Hs & Hi & _)|[(Hall & Hs & Hi & _)|(Hf & Hc & Hs & Hi & _)]];
      rewrite Hs, Hi.
    + split; [intros [H|H]; clash|]. split; [intros H; clash|]. split; [done|].
      split; [intros H; clash|].
      eapply Forall_impl; [exact Hall|]. simpl. intros it ->. split; clash.
    + split; [intros [H|H]; clash|]. split; [done|]. split; [intros H; clash|].
      split; [intros H; clash|].
      eapply Forall_impl; [exact Hall|]. simpl. intros it ->. split; clash.
    + assert (Hsplit : forall it, it ∈ map refunded_item (imap (charged_item ex) (Bill.Items (bill s))) ->
                LineItem.Status it = ItemFailed \/ LineItem.Status it = ItemRefunded).
      { intros it Hin. apply list_elem_of_fmap in Hin as (x & -> & Hx).
        destruct (charged_elem ex _ x Hpend Hx) as (i & y & _ & _ & _ & [[H _]|[H _]]);
          unfold refunded_item; rewrite H; [by left|by right]. }
      split; [intros [H|H]; clash|]. split; [intros H; clash|]. split; [intros H; clash|].
      split.
      * intros _. split; [|split].
        -- apply Forall_lookup. intros i it Hit. apply Hsplit.
           by apply list_elem_of_lookup_2 with i.
        -- destruct Hf as (f & Hf & Hfs). exists (refunded_item f). split.
           ++ apply list_elem_of_fmap. by exists f.
           ++ unfold refunded_item. by rewrite Hfs.
        -- destruct Hc as (c & Hc & Hcs). exists (refunded_item c). split.
           ++ apply list_elem_of_fmap. by exists c.
           ++ unfold refunded_item. by rewrite Hcs.
      * apply Forall_lookup. intros i it Hit.
        destruct (Hsplit it) as [H|H]; [by apply list_elem_of_lookup_2 with i|..];
          rewrite H; split; clash.
  - fold s in Hitems. rewrite after_loop_closed by done. simpl.
    split; [done|].
    split; [intros H; destruct Hst; clash|].
    split; [intros H; destruct Hst; clash|].
    split; [intros H; destruct Hst; clash|].
    eapply Forall_impl; [exact Hitems|]. simpl. intros it ->. split; clash.
Qed.

(** X9. The order in which the charge and refund coroutines complete has no
    influence on what the workflow does: for any two schedulers the outcome
    of the resolution (final bill, returned error, activities) is the same
    on every bill, and so is the whole run. *)
Theorem scheduler_does_not_matter (ex : Executor) (sched1 sched2 : Scheduler) :
  (forall b, after_loop ex sched1 b = after_loop ex sched2 b) /\
  (forall billID cur reg evs,
     BillWorkflow billID cur reg evs ex sched1 = BillWorkflow billID cur reg evs ex sched2).
Proof.
  assert (Hb : forall b, after_loop ex sched1 b = after_loop ex sched2 b).
  { intros b. unfold after_loop, charging.
    by rewrite !refund_all_map, !charge_all_imap. }
  split; [done|]. intros billID cur reg evs. unfold BillWorkflow.
  destruct reg; [done|]. by rewrite Hb.
Qed.

Lemma charged_lookup (ex : Executor) (items : list LineItem.t) (i : nat) (it : LineItem.t) :
  items !! i = Some it ->
  LineItem.Status it = ItemPending ->
  imap (charged_item ex) items !! i
  = Some (LineItem.with_status it
            (if charge_err ex i it then ItemFailed else ItemCharged)).
Proof.
  intros Hi Hp. rewrite list_lookup_imap, Hi. simpl.
  unfold charged_item, charge_status. by rewrite Hp.
Qed.

(** X10. The account is credited only for a settled bill: a credit
    activity is among the activities of a finished run exactly when the bill
    ended Settled, and then it is for the bill's total in the currency the
    workflow was started with.  A failed, compensated, canceled or expired
    bill is never credited. *)
Theorem credit_iff_settled (billID : string) (cur : Currency) (evs : list Stimulus)
    (ex : Executor) (sched : Scheduler) (s : LoopState) (o : Outcome) :
  BillWorkflow billID cur None evs ex sched = Finished s o ->
  forall amount c,
    ExecCredit amount c ∈ activities o <->
    Bill.Status (final o) = BillSettled /\ amount = Bill.Total (final o) /\ c = cur.
Proof.
  intros Hrun amount c.
  destruct (run_finished _ _ _ _ _ _ _ Hrun) as (-> & -> & Hclosed).
  set (s := event_loop evs (loop_init billID cur)) in *.
  destruct (after_loop_frame ex sched (bill s)) as (_ & Ht & _ & _).
  destruct (event_loop_identity billID cur evs) as [_ Hcur]. fold s in Hcur.
  destruct (run_exit billID cur evs Hclosed) as [(Hst & Hpend & Hne)|[Hst _]];
    fold s in Hst.
  - fold s in Hpend, Hne. rewrite Ht.
    destruct (charging_cases ex sched _ Hst Hpend Hne)
      as [(_ & Hs & _ & Ha & _)|[(_ & Hs & _ & Ha & _)|(_ & _ & Hs & _ & Ha & _)]];
      rewrite Hs, Ha.
    + split; [|intros (H & _); clash].
      intros Hin. apply list_elem_of_fmap in Hin as (x & Hx & _). discriminate.
    + rewrite Hcur. split.
      * intros Hin. apply elem_of_app in Hin as [Hin|Hin].
        -- apply list_elem_of_fmap in Hin as (x & Hx & _). discriminate.
        -- apply list_elem_of_singleton in Hin. by injection Hin as -> ->.
      * intros (_ & -> & ->). apply elem_of_app. right. by apply list_elem_of_singleton.
    + split; [|intros (H & _); clash].
      intros Hin. apply elem_of_app in Hin as [Hin|Hin];
        apply list_elem_of_fmap in Hin as (x & Hx & _); discriminate.
  - rewrite after_loop_closed by done. simpl. split.
    + intros Hin. inversion Hin.
    + intros (H & _). destruct Hst; clash.
Qed.

(** X11. Charges and refunds follow the items.  When the loop was left by a
    charge, one charge activity is executed for each item of the bill, in
    item order, and none otherwise.  A refund activity is executed exactly
    for the items whose charge succeeded, and only when the bill ends
    Compensated: never for an item whose charge failed, and never when every
    charge succeeded or every charge failed. *)
Theorem charges_and_refunds (billID : string) (cur : Currency) (evs : list Stimulus)
    (ex : Executor) (sched : Scheduler) (s : LoopState) (o : Outcome) :
  BillWorkflow billID cur None evs ex sched = Finished s o ->
  (Bill.Status (bill s) = BillCharging ->
   exists rest, activities o = map ExecCharge (Bill.Items (bill s)) ++ rest /\
                forall li, ExecCharge li ∉ rest) /\
  (Bill.Status (bill s) <> BillCharging -> activities o = []) /\
  (forall li,
     ExecRefund li ∈ activities o <->
     Bill.Status (final o) = BillCompensated /\
     exists i it, Bill.Items (bill s) !! i = Some it /\
                  charge_err ex i it = false /\
                  li = LineItem.with_status it ItemCharged).
Proof.
  intros Hrun.
  destruct (run_finished _ _ _ _ _ _ _ Hrun) as (-> & -> & Hclosed).
  set (s := event_loop evs (loop_init billID cur)) in *.
  destruct (run_exit billID cur evs Hclosed) as [(Hst & Hpend & Hne)|[Hst _]];
    fold s in Hst.
  - fold s in Hpend, Hne.
    split; [intros _|split; [done|]].
    + destruct (charging_cases ex sched _ Hst Hpend Hne)
        as [(_ & _ & _ & Ha & _)|[(_ & _ & _ & Ha & _)|(_ & _ & _ & _ & Ha & _)]];
        rewrite Ha.
      * exists []. rewrite app_nil_r. split; [done|]. intros li Hin. inversion Hin.
      * eexists. split; [done|]. intros li Hin.
        apply list_elem_of_singleton in Hin. discriminate.
      * eexists. split; [done|]. intros li Hin.
        apply list_elem_of_fmap in Hin as (x & Hx & _). discriminate.
    + intros li.
      destruct (charging_cases ex sched _ Hst Hpend Hne)
        as [(_ & Hs & _ & Ha & _)|[(_ & Hs & _ & Ha & _)|(_ & _ & Hs & _ & Ha & _)]];
        rewrite Hs, Ha.
      * split; [|intros (H & _); clash].
        intros Hin. apply list_elem_of_fmap in Hin as (x & Hx & _). discriminate.
      * split; [|intros (H & _); clash].
        intros Hin. apply elem_of_app in Hin as [Hin|Hin].
        -- apply list_elem_of_fmap in Hin as (x & Hx & _). discriminate.
        -- apply list_elem_of_singleton in Hin. discriminate.
      * split.
        -- intros Hin. split; [done|]. apply elem_of_app in Hin as [Hin|Hin].
           { apply list_elem_of_fmap in Hin as (x & Hx & _). discriminate. }
           apply list_elem_of_fmap in Hin as (x & [= ->] & Hx).
           apply list_elem_of_filter in Hx as [Hxs Hx].
           destruct (charged_elem ex _ x Hpend Hx)
             as (i & y & Hy & _ & Heq & [[Hf _]|[_ Herr]]); [clash|].
           exists i, y. split; [done|]. split; [done|].
           rewrite Heq. unfold charge_status. simpl. by rewrite Herr.
        -- intros (_ & i & it & Hi & Herr & ->). apply elem_of_app. right.
           apply list_elem_of_fmap. eexists. split; [done|].
           apply list_elem_of_filter. split; [done|].
           apply list_elem_of_lookup_2 with i.
           rewrite (charged_lookup ex _ i it Hi (all_pending_lookup _ _ _ Hpend Hi)).
           by rewrite Herr.
  - rewrite after_loop_closed by done. simpl.
    split; [intros H; destruct Hst; clash|]. split; [done|].
    intros li. split; [intros Hin; inversion Hin|].
    intros (H & _). destruct Hst; clash.
Qed.

Lemma select_congr (ev : Stimulus) (s1 s2 : LoopState) :
  bill s1 = bill s2 -> timer_canceled s1 = timer_canceled s2 ->
  bill (select ev s1) = bill (select ev s2) /\
  timer_canceled (select ev s1) = timer_canceled (select ev s2).
Proof.
  intros Hb Ht. destruct ev as [li| | |]; simpl.
  - unfold on_add. rewrite Hb. by destruct (AddItem (bill s2) li).
  - unfold on_charge. rewrite Hb. by destruct (BeginCharge (bill s2)) as [b [e|]].
  - unfold on_cancel. rewrite Hb. by destruct (Cancel (bill s2)) as [b [e|]].
  - by rewrite Hb.
Qed.

Lemma event_loop_congr (evs : list Stimulus) (s1 s2 : LoopState) :
  bill s1 = bill s2 -> timer_canceled s1 = timer_canceled s2 ->
  bill (event_loop evs s1) = bill (event_loop evs s2) /\
  timer_canceled (event_loop evs s1) = timer_canceled (event_loop evs s2).
Proof.
  revert s1 s2. induction evs as [|ev evs IH]; intros s1 s2 Hb Ht; simpl; [done|].
  rewrite Hb. destruct (String.eqb _ _); [|done].
  destruct (select_congr ev s1 s2 Hb Ht) as [Hb' Ht']. by apply IH.
Qed.

Lemma select_refused (ev : Stimulus) (s : LoopState) :
  Bill.Status (bill s) = BillOpen -> refused ev (bill s) ->
  bill (select ev s) = bill s /\ timer_canceled (select ev s) = timer_canceled s.
Proof.
  intros Hopen Href. destruct ev as [li| | |]; simpl in *; try done.
  - unfold on_add, AddItem. rewrite Hopen. simpl. by rewrite Href.
  - unfold on_charge, BeginCharge. rewrite Hopen. simpl. by rewrite Href.
Qed.

(** X12. A signal the aggregate refuses is dropped by the loop without a
    trace in the bill: an add-item signal whose identifier is already held,
    or a charge signal while no item is Pending, leaves the bill Open and
    the timer armed, and the rest of the run is what it would have been
    without that signal. *)
Theorem refused_signal_is_dropped (billID : string) (cur : Currency)
    (before after : list Stimulus) (ev : Stimulus) :
  let s := event_loop before (loop_init billID cur) in
  Bill.Status (bill s) = BillOpen ->
  refused ev (bill s) ->
  bill (select ev s) = bill s /\
  timer_canceled (select ev s) = timer_canceled s /\
  bill (event_loop (before ++ ev :: after) (loop_init billID cur))
  = bill (event_loop (before ++ after) (loop_init billID cur)) /\
  (forall ex sched,
     observe (BillWorkflow billID cur None (before ++ ev :: after) ex sched)
     = observe (BillWorkflow billID cur None (before ++ after) ex sched)).
Proof.
  intros s Hopen Href.
  destruct (select_refused ev s Hopen Href) as [Hb Ht].
  assert (Hsame : bill (event_loop (before ++ ev :: after) (loop_init billID cur))
                  = bill (event_loop (before ++ after) (loop_init billID cur))).
  { rewrite !event_loop_app. fold s. simpl. rewrite Hopen. simpl.
    by apply event_loop_congr. }
  split; [done|]. split; [done|]. split; [done|].
  intros ex sched. unfold BillWorkflow. rewrite Hsame.
  by destruct (String.eqb _ _).
Qed.

(** ** The workflow with the repository's activities *)

Lemma mock_charged_lookup (items : list LineItem.t) (i : nat) (it : LineItem.t) :
  all_pending items -> items !! i = Some it ->
  imap (charged_item mock_executor) items !! i
  = Some (LineItem.with_status it
            (if String.eqb (LineItem.Name it) "FAIL" then ItemFailed else ItemCharged)).
Proof.
  intros Hpend Hi.
  by rewrite (charged_lookup mock_executor items i it Hi (all_pending_lookup _ _ _ Hpend Hi)).
Qed.

Lemma mock_failed_ids (items : list LineItem.t) :
  all_pending items ->
  failed_ids (imap (charged_item mock_executor) items)
  = map LineItem.ID (filter (fun it => LineItem.Name it = "FAIL") items).
Proof.
  intros Hpend.
  assert (Hmap : imap (charged_item mock_executor) items
                 = map (fun it => LineItem.with_status it
                          (if String.eqb (LineItem.Name it) "FAIL"
                           then ItemFailed else ItemCharged)) items).
  { apply list_eq. intros i. rewrite list_lookup_fmap.
    destruct (items !! i) as [it|] eqn:Hi.
    - by rewrite (mock_charged_lookup items i it Hpend Hi).
    - by rewrite list_lookup_imap, Hi. }
  rewrite Hmap. clear Hmap Hpend.
  induction items as [|a items IH]; simpl; [done|].
  rewrite filter_cons.
  destruct (String.eqb_spec (LineItem.Name a) "FAIL") as [Hn|Hn]; simpl.
  - rewrite decide_True by done. simpl. by rewrite IH.
  - by rewrite decide_False.
Qed.

Lemma mock_item_status (items : list LineItem.t) (it : LineItem.t) :
  all_pending items -> it ∈ items ->
  exists c, c ∈ imap (charged_item mock_executor) items /\
    (LineItem.Status c = ItemFailed <-> LineItem.Name it = "FAIL") /\
    (LineItem.Status c = ItemCharged <-> LineItem.Name it <> "FAIL").
Proof.
  intros Hpend Hin. apply list_elem_of_lookup in Hin as [i Hi].
  eexists. split.
  - apply list_elem_of_lookup_2 with i. by apply mock_charged_lookup.
  - simpl. destruct (String.eqb_spec (LineItem.Name it) "FAIL") as [Hn|Hn];
      split; split; try done; intros H; clash.
Qed.

Lemma mock_status_item (items : list LineItem.t) (c : LineItem.t) :
  all_pending items -> c ∈ imap (charged_item mock_executor) items ->
  exists it, it ∈ items /\
    (LineItem.Status c = ItemFailed <-> LineItem.Name it = "FAIL") /\
    (LineItem.Status c = ItemCharged <-> LineItem.Name it <> "FAIL").
Proof.
  intros Hpend Hin. apply list_elem_of_lookup in Hin as [i Hc].
  pose proof Hc as Hi. rewrite list_lookup_imap in Hi.
  destruct (items !! i) as [it|] eqn:Hit; [|done]. clear Hi.
  rewrite (mock_charged_lookup items i it Hpend Hit) in Hc. injection Hc as <-.
  exists it. split; [by apply list_elem_of_lookup_2 with i|]. simpl.
  destruct (String.eqb_spec (LineItem.Name it) "FAIL") as [Hn|Hn];
    split; split; try done; intros H; clash.
Qed.

(** X13. With the activities of the repository, where a charge fails exactly
    for an item named FAIL and a refund never fails, the names decide the
    run: a bill that is charged ends Settled exactly when no item is named
    FAIL, Failed exactly when every item is, and Compensated otherwise; and
    the identifiers an error carries are those of the items named FAIL, in
    item order. *)
Theorem mock_activities_decide (billID : string) (cur : Currency) (evs : list Stimulus)
    (sched : Scheduler) (s : LoopState) (o : Outcome) :
  BillWorkflow billID cur None evs mock_executor sched = Finished s o ->
  Bill.Status (bill s) = BillCharging ->
  (Bill.Status (final o) = BillSettled <->
   forall it, it ∈ Bill.Items (bill s) -> LineItem.Name it <> "FAIL") /\
  (Bill.Status (final o) = BillFailed <->
   forall it, it ∈ Bill.Items (bill s) -> LineItem.Name it = "FAIL") /\
  (Bill.Status (final o) = BillCompensated <->
   (exists it, it ∈ Bill.Items (bill s) /\ LineItem.Name it = "FAIL") /\
   (exists it, it ∈ Bill.Items (bill s) /\ LineItem.Name it <> "FAIL")) /\
  (forall e, result o = Some e ->
     err_details e
     = map LineItem.ID (filter (fun it => LineItem.Name it = "FAIL") (Bill.Items (bill s)))).
Proof.
  intros Hrun Hst.
  destruct (run_finished _ _ _ _ _ _ _ Hrun) as (-> & -> & Hclosed).
  set (s := event_loop evs (loop_init billID cur)) in *.
  destruct (run_exit billID cur evs Hclosed) as [(_ & Hpend & Hne)|[Hst' _]];
    [|fold s in Hst'; destruct Hst'; clash].
  fold s in Hpend, Hne.
  set (charged := imap (charged_item mock_executor) (Bill.Items (bill s))).
  assert (Hfirst : exists it, it ∈ Bill.Items (bill s)).
  { destruct (Bill.Items (bill s)) as [|a l]; [done|]. exists a. left. }
  destruct Hfirst as (a & Ha).
  destruct (charging_cases mock_executor sched _ Hst Hpend Hne)
    as [(Hall & Hs & _ & _ & e & He & _ & _ & Hd)
       |[(Hall & Hs & _ & _ & Hr)
        |((f & Hf & Hfs) & (c & Hc & Hcs) & Hs & _ & _ & e & He & _ & _ & Hd)]];
    fold charged in Hall || fold charged in Hf, Hc; rewrite Hs.
  - (* every charge failed *)
    assert (Hnames : forall it, it ∈ Bill.Items (bill s) -> LineItem.Name it = "FAIL").
    { intros it Hin. destruct (mock_item_status _ it Hpend Hin) as (x & Hx & Hxf & _).
      apply Hxf. by apply (all_status_elem ItemFailed charged). }
    split; [split; [intros H; clash|intros H; by destruct (H a Ha (Hnames a Ha))]|].
    split; [done|]. split.
    + split; [intros H; clash|]. intros (_ & it & Hin & Hn). by destruct (Hn (Hnames it Hin)).
    + intros e' He'. rewrite He in He'. injection He' as <-. rewrite Hd.
      fold charged. rewrite <- (mock_failed_ids _ Hpend). fold charged.
      rewrite failed_ids_filter, filter_status_all; [done|].
      intros it Hin. by apply (all_status_elem ItemFailed charged).
  - (* no charge failed *)
    assert (Hnames : forall it, it ∈ Bill.Items (bill s) -> LineItem.Name it <> "FAIL").
    { intros it Hin. destruct (mock_item_status _ it Hpend Hin) as (x & Hx & _ & Hxc).
      apply Hxc. by apply (all_status_elem ItemCharged charged). }
    split; [done|].
    split; [split; [intros H; clash|intros H; by destruct (Hnames a Ha (H a Ha))]|].
    split.
    + split; [intros H; clash|]. intros ((it & Hin & Hn) & _). by destruct (Hnames it Hin).
    + intros e' He'. rewrite Hr in He'. discriminate.
  - (* some of each *)
    destruct (mock_status_item _ f Hpend Hf) as (itf & Hitf & Hff & _).
    destruct (mock_status_item _ c Hpend Hc) as (itc & Hitc & _ & Hcc).
    pose proof (proj1 Hff Hfs) as Hnf. pose proof (proj1 Hcc Hcs) as Hnc.
    split; [split; [intros H; clash|intros H; by destruct (H itf Hitf)]|].
    split; [split; [intros H; clash|intros H; by destruct (Hnc (H itc Hitc))]|].
    split.
    + split; [|done]. intros _. split; [by exists itf|by exists itc].
    + intros e' He'. rewrite He in He'. injection He' as <-. rewrite Hd.
      by apply mock_failed_ids.
Qed.

(** * Further properties of the ledger *)

(** X14. [AddBalance] refuses a zero amount with InvalidArgument and leaves
    the ledger as it was.  Any other amount, negative ones included, and any
    currency string, supported or not, is accepted: the balance of that
    currency becomes the old one plus the amount in [int64] arithmetic (the
    exact sum when it fits), no other balance changes, and the balances stay
    [int64] values. *)
Theorem AddBalance_spec (balances : gmap Currency Z) (cur : Currency) (amount : Z) :
  (amount = 0 ->
   AddBalance balances cur amount
   = (balances, Some {| Code := InvalidArgument; Message := "amount cannot be zero" |})) /\
  (amount <> 0 ->
   snd (AddBalance balances cur amount) = None /\
   balance (fst (AddBalance balances cur amount)) cur
   = add64 (balance balances cur) amount /\
   (in_int64 (balance balances cur + amount) ->
    balance (fst (AddBalance balances cur amount)) cur = balance balances cur + amount) /\
   (forall other, other <> cur ->
      balance (fst (AddBalance balances cur amount)) other = balance balances other)) /\
  (int64_ledger balances -> int64_ledger (fst (AddBalance balances cur amount))).
Proof.
  unfold AddBalance. split; [|split].
  - by intros ->.
  - intros Hnz. destruct (Z.eqb_spec amount 0) as [Hz|_]; [done|]. simpl.
    split; [done|]. rewrite balance_insert, decide_True by done.
    split; [done|]. split; [intros Hfit; by apply wrap64_id|].
    intros other Hne. by rewrite balance_insert, decide_False.
  - intros Hrange. destruct (Z.eqb amount 0); [done|]. simpl.
    intros c. rewrite balance_insert. destruct (decide (cur = c)); [|apply Hrange].
    apply wrap64_range.
Qed.

(** X15. A credit followed by a withdrawal of the same amount gives back the
    ledger: on a ledger of [int64] balances where the currency holds a
    non-negative balance, after [AddBalance] of a positive amount that fits,
    [Withdraw] of that amount from the same currency succeeds and every
    balance is what it was before the credit. *)
Theorem credit_then_withdraw (ToUpper : string -> string) (balances : gmap Currency Z)
    (curr : string) (cur : Currency) (amount : Z) :
  Parse ToUpper curr = (cur, None) ->
  int64_ledger balances ->
  0 <= balance balances cur ->
  0 < amount ->
  balance balances cur + amount <= int64_max ->
  let credited := fst (AddBalance balances cur amount) in
  snd (AddBalance balances cur amount) = None /\
  snd (Withdraw ToUpper credited curr amount) = None /\
  forall c, balance (fst (Withdraw ToUpper credited curr amount)) c = balance balances c.
Proof.
  intros Hparse Hrange Hnonneg Hpos Hfit credited.
  assert (Hc : balance credited cur = balance balances cur + amount).
  { unfold credited, AddBalance. destruct (Z.eqb_spec amount 0) as [Hz|_]; [lia|].
    simpl. rewrite balance_insert, decide_True by done.
    apply wrap64_id. pose proof (Hrange cur) as Hr.
    unfold in_int64, int64_min, int64_max in *. lia. }
  assert (Hother : forall c, c <> cur -> balance credited c = balance balances c).
  { intros c Hne. unfold credited, AddBalance. destruct (Z.eqb amount 0); [done|].
    simpl. by rewrite balance_insert, decide_False. }
  split.
  { unfold AddBalance. destruct (Z.eqb_spec amount 0) as [Hz|_]; [lia|done]. }
  unfold Withdraw. rewrite Hparse.
  destruct (Z.leb_spec amount 0) as [Hle|_]; [lia|].
  destruct (Z.ltb_spec (balance credited cur) amount) as [Hlt|_]; [lia|].
  simpl. split; [done|]. intros c. rewrite balance_insert.
  destruct (decide (cur = c)) as [<-|Hne]; [|by apply Hother].
  rewrite Hc. unfold sub64. replace (balance balances cur + amount - amount)
    with (balance balances cur) by lia.
  apply wrap64_id, Hrange.
Qed.

Lemma Parse_cases (ToUpper : string -> string) (raw : string) :
  (snd (Parse ToUpper raw) = None /\ fst (Parse ToUpper raw) = ToUpper raw /\
   ToUpper raw ∈ SupportedCurrencies)
  \/
  (snd (Parse ToUpper raw) = Some ("unsupported currency '" +:+ raw +:+ "'") /\
   fst (Parse ToUpper raw) = EmptyString /\
   ToUpper raw ∉ SupportedCurrencies).
Proof.
  unfold Parse, SupportedCurrencies.
  destruct (String.eqb_spec (ToUpper raw) USD) as [->|Hu]; simpl.
  { left. repeat split. left. }
  destruct (String.eqb_spec (ToUpper raw) EUR) as [->|He]; simpl.
  { left. repeat split. right. left. }
  destruct (String.eqb_spec (ToUpper raw) GEL) as [->|Hg]; simpl.
  { left. repeat split. right. right. left. }
  right. repeat split. intros Hin.
  repeat (apply elem_of_cons in Hin as [Hin|Hin]; [done|]). inversion Hin.
Qed.

(** X16. [Parse] answers with a supported currency or with an error, never
    both: on success the result is the upper-cased input and is one of USD,
    EUR, GEL; on failure the result is the empty currency and the message
    quotes the input as given.  The result is canonical: when upper-casing
    leaves it alone, parsing it again succeeds with the same currency. *)
Theorem Parse_spec (ToUpper : string -> string) (raw : string) :
  (snd (Parse ToUpper raw) = None <-> ToUpper raw ∈ SupportedCurrencies) /\
  (snd (Parse ToUpper raw) = None ->
   fst (Parse ToUpper raw) = ToUpper raw /\
   fst (Parse ToUpper raw) ∈ SupportedCurrencies /\
   (ToUpper (ToUpper raw) = ToUpper raw ->
    Parse ToUpper (fst (Parse ToUpper raw)) = (fst (Parse ToUpper raw), None))) /\
  (snd (Parse ToUpper raw) <> None ->
   Parse ToUpper raw
   = (EmptyString, Some ("unsupported currency '" +:+ raw +:+ "'"))).
Proof.
  destruct (Parse_cases ToUpper raw) as [(Hok & Hc & Hin)|(Herr & Hc & Hnin)].
  - split; [done|]. split; [|by rewrite Hok].
    intros _. split; [done|]. split; [by rewrite Hc|].
    intros Hidem. rewrite Hc.
    destruct (Parse_cases ToUpper (ToUpper raw)) as [(Hok2 & Hc2 & _)|(_ & _ & Hnin2)].
    + rewrite Hidem in Hc2. rewrite <- Hc2 at 2. rewrite <- Hok2.
      by destruct (Parse ToUpper (ToUpper raw)).
    + by rewrite Hidem in Hnin2.
  - split; [split; [by rewrite Herr|done]|]. split; [by rewrite Herr|].
    intros _. rewrite <- Herr, <- Hc. by destruct (Parse ToUpper raw).
Qed.

(** X17. [Withdraw] touches at most the balance of the currency it parsed:
    the balance of every other currency, and of every currency that is not
    supported, is the same after the call; any error leaves the whole ledger
    as it was; a request whose currency does not parse is answered with
    InvalidArgument whatever the amount; and the code is FailedPrecondition
    exactly when the currency parses, the amount is positive and the balance
    is below it. *)
Theorem Withdraw_frame (ToUpper : string -> string) (balances : gmap Currency Z)
    (curr : string) (amount : Z) :
  (forall c, c <> fst (Parse ToUpper curr) ->
     balance (fst (Withdraw ToUpper balances curr amount)) c = balance balances c) /\
  (forall c, c ∉ SupportedCurrencies ->
     balance (fst (Withdraw ToUpper balances curr amount)) c = balance balances c) /\
  (snd (Withdraw ToUpper balances curr amount) <> None ->
   fst (Withdraw ToUpper balances curr amount) = balances) /\
  (snd (Parse ToUpper curr) <> None ->
   exists msg, Withdraw ToUpper balances curr amount
               = (balances, Some {| Code := InvalidArgument; Message := msg |})) /\
  ((exists msg, snd (Withdraw ToUpper balances curr amount)
                = Some {| Code := FailedPrecondition; Message := msg |}) <->
   snd (Parse ToUpper curr) = None /\ 0 < amount /\
   balance balances (fst (Parse ToUpper curr)) < amount).
Proof.
  pose proof (Parse_cases ToUpper curr) as Hparse.
  destruct (Withdraw_cases ToUpper balances curr amount)
    as [(e & He & Hw)|[(Hp & Hle & Hw)|[(Hp & Hpos & Hlt & Hw)|(Hp & Hpos & Hge & Hw)]]];
    rewrite Hw; simpl.
  - split; [done|]. split; [done|]. split; [done|]. split; [eauto|].
    split; [intros (msg & [= ])|]. intros (H & _). congruence.
  - split; [done|]. split; [done|]. split; [done|]. split; [intros H; congruence|].
    split; [intros (msg & [= ])|]. intros (_ & H & _). lia.
  - split; [done|]. split; [done|]. split; [done|]. split; [intros H; congruence|].
    split; [done|]. intros _. eauto.
  - split; [|split; [|split; [done|split; [intros H; congruence|]]]].
    + intros c Hne. by rewrite balance_insert, decide_False.
    + intros c Hc. rewrite balance_insert, decide_False; [done|].
      intros <-. destruct Hparse as [(_ & Hfst & Hin)|(Herr & _)]; [|congruence].
      apply Hc. by rewrite Hfst.
    + split; [intros (msg & [= ])|]. intros (_ & _ & H). lia.
Qed.

Lemma GetBalances_supported (balances : gmap Currency Z) (c : Currency) :
  c ∈ SupportedCurrencies -> GetBalances balances !! c = Some (balance balances c).
Proof.
  intros Hc. unfold GetBalances, SupportedCurrencies in *. simpl.
  rewrite !lookup_insert.
  repeat (apply elem_of_cons in Hc as [->|Hc]; [by repeat case_decide|]).
  inversion Hc.
Qed.

(** X18. [GetBalances] reports exactly the three supported currencies: each
    with its balance, zero when the ledger has no entry for it, and nothing
    for any other key the ledger may hold.  What [AddBalance] credited to a
    supported currency is what [GetBalances] reports next. *)
Theorem GetBalances_spec (balances : gmap Currency Z) :
  (forall c, c ∈ SupportedCurrencies -> GetBalances balances !! c = Some (balance balances c)) /\
  (forall c, c ∉ SupportedCurrencies -> GetBalances balances !! c = None) /\
  (forall c, balances !! c = None -> c ∈ SupportedCurrencies ->
     GetBalances balances !! c = Some 0) /\
  (forall c amount, c ∈ SupportedCurrencies -> amount <> 0 ->
     GetBalances (fst (AddBalance balances c amount)) !! c
     = Some (add64 (balance balances c) amount)).
Proof.
  split; [apply GetBalances_supported|]. split; [|split].
  - intros c Hc. unfold GetBalances, SupportedCurrencies in *. simpl.
    rewrite !lookup_insert.
    repeat (case_decide; [subst; exfalso; apply Hc; set_solver|]). done.
  - intros c Hnone Hc. rewrite (GetBalances_supported _ c Hc).
    unfold balance. by rewrite Hnone.
  - intros c amount Hc Hnz. rewrite (GetBalances_supported _ c Hc). f_equal.
    unfold AddBalance. destruct (Z.eqb_spec amount 0) as [Hz|_]; [done|]. simpl.
    by rewrite balance_insert, decide_True.
Qed.

(** * Properties of the request handlers *)

(** X19. The add-item handler signals the workflow only with an item the
    aggregate accepts on the bill it was shown: whenever it hands a signal to
    the client, the query had returned a bill, the signal carries the
    request's identifier, name and amount with status Pending, the amount is
    positive, identifier and name are not blank, and [AddItem] on that bill
    returns nil and appends the item.  It returns nil exactly when it
    signalled and the client reported no error.  If the bill shown is the
    one the loop holds, selecting the signal appends the item. *)
Theorem handler_AddItem_sound (TrimSpace : string -> string)
    (req : Service.AddItemRequest) (reply : QueryReply) (signal_err : option string) :
  let r := Service.AddItem TrimSpace req reply signal_err in
  (fst r = None <-> (exists ev, snd r = Some ev) /\ signal_err = None) /\
  (forall ev, snd r = Some ev ->
     exists snap li,
       reply = Snapshot snap /\ ev = SigAddLineItem li /\
       li = {| LineItem.ID := Service.ID req; LineItem.Name := Service.Name req;
               LineItem.Amount := Service.Amount req; LineItem.Status := ItemPending |} /\
       0 < LineItem.Amount li /\
       TrimSpace (LineItem.ID li) <> EmptyString /\
       TrimSpace (LineItem.Name li) <> EmptyString /\
       snd (AddItem snap li) = None /\
       Bill.Items (fst (AddItem snap li)) = Bill.Items snap ++ [li] /\
       (forall s, bill s = snap ->
          Bill.Items (bill (select ev s)) = Bill.Items snap ++ [li])).
Proof.
  intros r. subst r. unfold Service.AddItem.
  destruct (String.eqb_spec (TrimSpace (Service.ID req)) EmptyString) as [Hid|Hid];
    [simpl; split; [split; [done|by intros [[ev H] _]]|done]|].
  destruct (Z.leb_spec (Service.Amount req) 0) as [Hle|Hpos];
    [simpl; split; [split; [done|by intros [[ev H] _]]|done]|].
  destruct (String.eqb_spec (TrimSpace (Service.Name req)) EmptyString) as [Hname|Hname];
    [simpl; split; [split; [done|by intros [[ev H] _]]|done]|].
  destruct reply as [e|e|snap];
    [simpl; split; [split; [done|by intros [[ev H] _]]|done]..|].
  destruct (String.eqb_spec (Bill.Status snap) BillOpen) as [Hopen|Hclosed];
    [|simpl; split; [split; [done|by intros [[ev H] _]]|done]].
  simpl.
  destruct (has_item_id (Service.ID req) (Bill.Items snap)) eqn:Hfresh;
    [simpl; split; [split; [done|by intros [[ev H] _]]|done]|].
  assert (Hsend : forall ev,
            Some (SigAddLineItem
                    {| LineItem.ID := Service.ID req; LineItem.Name := Service.Name req;
                       LineItem.Amount := Service.Amount req;
                       LineItem.Status := ItemPending |}) = Some ev ->
            exists snap0 li,
              Snapshot snap = Snapshot snap0 /\ ev = SigAddLineItem li /\
              li = {| LineItem.ID := Service.ID req; LineItem.Name := Service.Name req;
                      LineItem.Amount := Service.Amount req;
                      LineItem.Status := ItemPending |} /\
              0 < LineItem.Amount li /\
              TrimSpace (LineItem.ID li) <> EmptyString /\
              TrimSpace (LineItem.Name li) <> EmptyString /\
              snd (AddItem snap0 li) = None /\
              Bill.Items (fst (AddItem snap0 li)) = Bill.Items snap0 ++ [li] /\
              (forall s, bill s = snap0 ->
                 Bill.Items (bill (select ev s)) = Bill.Items snap0 ++ [li])).
  { intros ev [= <-]. eexists snap, _. split; [done|]. split; [done|]. split; [done|].
    simpl. split; [done|]. split; [done|]. split; [done|].
    unfold AddItem. rewrite Hopen. simpl. rewrite Hfresh. simpl.
    split; [done|]. split; [done|].
    intros s Hs. unfold on_add, AddItem. rewrite Hs, Hopen. simpl.
    by rewrite Hfresh. }
  destruct signal_err as [e|]; simpl.
  - split; [|exact Hsend]. split; [done|]. by intros [_ H].
  - split; [|exact Hsend]. split; [|done]. intros _. split; [eauto|done].
Qed.

Lemma requery_bill (reply2 : QueryReply) (b : Bill.t) :
  fst (Service.requery reply2) = Some b <->
  reply2 = Snapshot b /\ snd (Service.requery reply2) = None.
Proof.
  destruct reply2 as [e|e|b2]; simpl.
  - split; [done|]. by intros [H _].
  - split; [done|]. by intros [H _].
  - split; [by intros [= ->]|]. by intros [[= ->] _].
Qed.

(** X20. The charge handler signals the workflow only when [BeginCharge]
    would succeed on the bill it was shown: whenever it hands a signal to the
    client, the first query had returned an Open bill with a Pending item,
    the signal is the charge signal, and [BeginCharge] on that bill returns
    nil and makes it Charging.  It returns a bill exactly when it signalled
    without error and the second query returned that bill.  If the bill
    shown is the one the loop holds, selecting the signal leaves the loop
    with the bill Charging and the timer canceled. *)
Theorem handler_ChargeBill_sound (reply : QueryReply) (signal_err : option string)
    (reply2 : QueryReply) :
  let r := Service.ChargeBill reply signal_err reply2 in
  (forall b, fst (fst r) = Some b <->
     snd r = Some SigChargeBill /\ signal_err = None /\ reply2 = Snapshot b /\
     snd (fst r) = None) /\
  (forall ev, snd r = Some ev ->
     ev = SigChargeBill /\
     exists snap,
       reply = Snapshot snap /\ Bill.Status snap = BillOpen /\ PendingCount snap <> O /\
       BeginCharge snap = (Bill.with_status snap BillCharging, None) /\
       (forall s, bill s = snap ->
          Bill.Status (bill (select ev s)) = BillCharging /\
          timer_canceled (select ev s) = true)).
Proof.
  intros r. subst r. unfold Service.ChargeBill.
  destruct reply as [e|e|snap];
    [simpl; split; [intros b; split; [done|by intros [H _]]|done]..|].
  destruct (String.eqb_spec (Bill.Status snap) BillOpen) as [Hopen|Hclosed];
    [|simpl; split; [intros b; split; [done|by intros [H _]]|done]].
  simpl.
  destruct (Nat.eqb_spec (PendingCount snap) 0) as [Hz|Hnz];
    [simpl; split; [intros b; split; [done|by intros [H _]]|done]|].
  assert (Hbegin : BeginCharge snap = (Bill.with_status snap BillCharging, None)).
  { unfold BeginCharge. rewrite Hopen. simpl.
    by destruct (Nat.eqb_spec (PendingCount snap) 0). }
  assert (Hsend : forall ev, Some SigChargeBill = Some ev ->
            ev = SigChargeBill /\
            exists snap0, Snapshot snap = Snapshot snap0 /\
              Bill.Status snap0 = BillOpen /\ PendingCount snap0 <> O /\
              BeginCharge snap0 = (Bill.with_status snap0 BillCharging, None) /\
              (forall s, bill s = snap0 ->
                 Bill.Status (bill (select ev s)) = BillCharging /\
                 timer_canceled (select ev s) = true)).
  { intros ev [= <-]. split; [done|]. exists snap. repeat split; try done;
      intros; simpl; unfold on_charge; by rewrite H, Hbegin. }
  destruct signal_err as [e|]; simpl.
  - split; [|exact Hsend]. intros b. split; [done|]. by intros (_ & H & _).
  - split; [|exact Hsend]. intros b. rewrite requery_bill. split.
    + by intros [-> H].
    + by intros (_ & _ & -> & H).
Qed.

(** X21. The cancel handler signals the workflow only when [Cancel] would
    succeed on the bill it was shown: whenever it hands a signal to the
    client, the first query had returned an Open bill, the signal is the
    cancel signal, and [Cancel] on that bill returns nil.  It returns a bill
    exactly when it signalled without error and the second query returned
    that bill.  If the bill shown is the one the loop holds, selecting the
    signal leaves the loop with the bill Canceled, no item Pending and the
    timer canceled. *)
Theorem handler_CancelBill_sound (reply : QueryReply) (signal_err : option string)
    (reply2 : QueryReply) :
  let r := Service.CancelBill reply signal_err reply2 in
  (forall b, fst (fst r) = Some b <->
     snd r = Some SigCancelBill /\ signal_err = None /\ reply2 = Snapshot b /\
     snd (fst r) = None) /\
  (forall ev, snd r = Some ev ->
     ev = SigCancelBill /\
     exists snap,
       reply = Snapshot snap /\ Bill.Status snap = BillOpen /\
       snd (Cancel snap) = None /\
       (forall s, bill s = snap ->
          Bill.Status (bill (select ev s)) = BillCanceled /\
          PendingCount (bill (select ev s)) = O /\
          timer_canceled (select ev s) = true)).
Proof.
  intros r. subst r. unfold Service.CancelBill.
  destruct reply as [e|e|snap];
    [simpl; split; [intros b; split; [done|by intros [H _]]|done]..|].
  destruct (String.eqb_spec (Bill.Status snap) BillOpen) as [Hopen|Hclosed];
    [|simpl; split; [intros b; split; [done|by intros [H _]]|done]].
  simpl.
  assert (Hsend : forall ev, Some SigCancelBill = Some ev ->
            ev = SigCancelBill /\
            exists snap0, Snapshot snap = Snapshot snap0 /\
              Bill.Status snap0 = BillOpen /\ snd (Cancel snap0) = None /\
              (forall s, bill s = snap0 ->
                 Bill.Status (bill (select ev s)) = BillCanceled /\
                 PendingCount (bill (select ev s)) = O /\
                 timer_canceled (select ev s) = true)).
  { intros ev [= <-]. split; [done|]. exists snap. split; [done|]. split; [done|].
    split; [unfold Cancel; by rewrite Hopen|].
    intros s Hs. simpl. unfold on_cancel, Cancel. rewrite Hs, Hopen. simpl.
    split; [done|]. split; [|done].
    unfold PendingCount. simpl. rewrite cancel_pending_map. apply count_pending_canceled. }
  destruct signal_err as [e|]; simpl.
  - split; [|exact Hsend]. intros b. split; [done|]. by intros (_ & H & _).
  - split; [|exact Hsend]. intros b. rewrite requery_bill. split.
    + by intros [-> H].
    + by intros (_ & _ & -> & H).
Qed.

(** * The further properties on examples *)

(** A bill with a Pending and a Charged item is canceled. *)
Lemma no_pending_after_closing_witness :
  let b := {| Bill.ID := "b"; Bill.Status := BillOpen; Bill.Cur := USD;
              Bill.Items := [LineItem.mk "p" "P" 10 ItemPending;
                             LineItem.mk "c" "C" 20 ItemCharged];
              Bill.Total := 30 |} in
  PendingCount b = 1%nat /\ snd (Cancel b) = None /\ PendingCount (fst (Cancel b)) = O.
Proof.
  intros b. destruct (no_pending_after_closing b) as (_ & _ & _ & _ & Hcancel).
  assert (H : snd (Cancel b) = None) by reflexivity.
  split; [reflexivity|]. split; [exact H|]. exact (proj1 (Hcancel H)).
Defined.

(** Two adds of "a1" and one of "b2", then a cancel. *)
Lemma history_keeps_ids_unique_witness :
  let ops := [OpAddItem (item "a1" "Book" 1500); OpAddItem (item "a1" "Book" 1500);
              OpAddItem (item "b2" "Pen" 500); OpCancel] in
  unique_ids (Bill.Items (new_bill "b" USD)) /\
  unique_ids (Bill.Items (run_ops ops (new_bill "b" USD))) /\
  map LineItem.ID (Bill.Items (run_ops ops (new_bill "b" USD))) = ["a1"; "b2"].
Proof.
  intros ops.
  assert (H : unique_ids (Bill.Items (new_bill "b" USD))) by constructor.
  split; [exact H|]. split; [exact (history_keeps_ids_unique ops _ H)|reflexivity].
Defined.

(** The partial-failure run leaves the books balanced. *)
Lemma finished_bill_books_witness :
  let s := loop_exit partial_evs in
  let o := after_loop mock_executor lifo (bill s) in
  BillWorkflow "bill" USD None partial_evs mock_executor lifo = Finished s o /\
  Bill.Total (final o) = 150 /\ total_ok (final o) /\ unique_ids (Bill.Items (final o)).
Proof.
  intros s o.
  assert (Hrun : BillWorkflow "bill" USD None partial_evs mock_executor lifo = Finished s o)
    by reflexivity.
  destruct (finished_bill_books _ _ _ _ _ _ _ Hrun) as (_ & _ & _ & Ht & Hu & Hok).
  split; [exact Hrun|]. split; [etrans; [exact Ht|reflexivity]|]. split; [exact Hok|exact Hu].
Defined.

(** The all-fail run returns a retryable application error. *)
Lemma outcome_classification_witness :
  let s := loop_exit all_fail_evs in
  let o := after_loop mock_executor fifo (bill s) in
  BillWorkflow "bill" USD None all_fail_evs mock_executor fifo = Finished s o /\
  (result o = None \/ exists e, result o = Some e /\ err_non_retryable e = false).
Proof.
  intros s o.
  assert (Hrun : BillWorkflow "bill" USD None all_fail_evs mock_executor fifo = Finished s o)
    by reflexivity.
  split; [exact Hrun|].
  destruct (outcome_classification _ _ _ _ _ _ _ Hrun)
    as [(_ & _ & Hr & _)|(_ & [(_ & Hr)|[(_ & e & He & _ & Hn)|(_ & e & He & _ & Hn)]])].
  - left. exact Hr.
  - left. exact Hr.
  - right. exists e. split; [exact He|exact Hn].
  - right. exists e. split; [exact He|exact Hn].
Defined.

(** After the settled run both items are Charged. *)
Lemma final_item_statuses_witness :
  let s := loop_exit settled_evs in
  let o := after_loop mock_executor fifo (bill s) in
  BillWorkflow "bill" USD None settled_evs mock_executor fifo = Finished s o /\
  Bill.Status (final o) = BillSettled /\
  all_status ItemCharged (Bill.Items (final o)).
Proof.
  intros s o.
  assert (Hrun : BillWorkflow "bill" USD None settled_evs mock_executor fifo = Finished s o)
    by reflexivity.
  assert (Hst : Bill.Status (final o) = BillSettled) by reflexivity.
  destruct (final_item_statuses _ _ _ _ _ _ _ Hrun) as (_ & Hsettled & _).
  split; [exact Hrun|]. split; [exact Hst|exact (Hsettled Hst)].
Defined.

(** The settled run credits 2000 USD; the partial-failure run credits nothing. *)
Lemma credit_iff_settled_witness :
  let s := loop_exit settled_evs in
  let o := after_loop mock_executor fifo (bill s) in
  BillWorkflow "bill" USD None settled_evs mock_executor fifo = Finished s o /\
  ExecCredit 2000 USD ∈ activities o.
Proof.
  intros s o.
  assert (Hrun : BillWorkflow "bill" USD None settled_evs mock_executor fifo = Finished s o)
    by reflexivity.
  split; [exact Hrun|].
  apply (credit_iff_settled _ _ _ _ _ _ _ Hrun). repeat split; reflexivity.
Defined.

(** The partial-failure run refunds "ok", whose charge succeeded. *)
Lemma charges_and_refunds_witness :
  let s := loop_exit partial_evs in
  let o := after_loop mock_executor lifo (bill s) in
  BillWorkflow "bill" USD None partial_evs mock_executor lifo = Finished s o /\
  ExecRefund (LineItem.mk "ok" "Book" 100 ItemCharged) ∈ activities o.
Proof.
  intros s o.
  assert (Hrun : BillWorkflow "bill" USD None partial_evs mock_executor lifo = Finished s o)
    by reflexivity.
  split; [exact Hrun|].
  destruct (charges_and_refunds _ _ _ _ _ _ _ Hrun) as (_ & _ & Hrefund).
  apply Hrefund. split; [reflexivity|].
  exists 0%nat, (LineItem.mk "ok" "Book" 100 ItemPending). repeat split; reflexivity.
Defined.

(** A second add of "dup" and a charge before any item are dropped. *)
Lemma refused_signal_is_dropped_witness :
  let dup := SigAddLineItem (item "dup" "Book" 123) in
  (Bill.Status (bill (event_loop [dup] (loop_init "bill" USD))) = BillOpen /\
   refused dup (bill (event_loop [dup] (loop_init "bill" USD))) /\
   bill (event_loop ([dup] ++ dup :: [SigChargeBill]) (loop_init "bill" USD))
   = bill (event_loop ([dup] ++ [SigChargeBill]) (loop_init "bill" USD))) /\
  (refused SigChargeBill (bill (event_loop [] (loop_init "bill" USD))) /\
   bill (event_loop ([] ++ SigChargeBill :: [TimerReady]) (loop_init "bill" USD))
   = bill (event_loop ([] ++ [TimerReady]) (loop_init "bill" USD))).
Proof.
  intros dup. split.
  - assert (H1 : Bill.Status (bill (event_loop [dup] (loop_init "bill" USD))) = BillOpen)
      by reflexivity.
    assert (H2 : refused dup (bill (event_loop [dup] (loop_init "bill" USD))))
      by reflexivity.
    destruct (refused_signal_is_dropped "bill" USD [dup] [SigChargeBill] dup H1 H2)
      as (_ & _ & Hsame & _).
    split; [exact H1|]. split; [exact H2|exact Hsame].
  - assert (H1 : Bill.Status (bill (event_loop [] (loop_init "bill" USD))) = BillOpen)
      by reflexivity.
    assert (H2 : refused SigChargeBill (bill (event_loop [] (loop_init "bill" USD))))
      by reflexivity.
    destruct (refused_signal_is_dropped "bill" USD [] [TimerReady] SigChargeBill H1 H2)
      as (_ & _ & Hsame & _).
    split; [exact H2|exact Hsame].
Defined.

(** The partial-failure run: one item is named FAIL, one is not. *)
Lemma mock_activities_decide_witness :
  let s := loop_exit partial_evs in
  let o := after_loop mock_executor fifo (bill s) in
  BillWorkflow "bill" USD None partial_evs mock_executor fifo = Finished s o /\
  Bill.Status (bill s) = BillCharging /\
  Bill.Status (final o) = BillCompensated.
Proof.
  intros s o.
  assert (Hrun : BillWorkflow "bill" USD None partial_evs mock_executor fifo = Finished s o)
    by reflexivity.
  assert (Hst : Bill.Status (bill s) = BillCharging) by reflexivity.
  destruct (mock_activities_decide _ _ _ _ _ _ Hrun Hst) as (_ & _ & Hcomp & _).
  split; [exact Hrun|]. split; [exact Hst|]. apply Hcomp. split.
  - exists (LineItem.mk "bad" "FAIL" 50 ItemPending). split; [|reflexivity].
    apply list_elem_of_lookup. exists 1%nat. reflexivity.
  - exists (LineItem.mk "ok" "Book" 100 ItemPending). split; [|vm_compute; discriminate].
    apply list_elem_of_lookup. exists 0%nat. reflexivity.
Defined.

(** The first credit of the account tests: 500 USD on an empty ledger. *)
Lemma AddBalance_spec_witness :
  balance (fst (AddBalance ∅ USD 500)) USD = 500 /\
  balance (fst (AddBalance ∅ USD 500)) EUR = 0 /\
  (exists e, AddBalance ∅ USD 0 = (∅, Some e)).
Proof.
  destruct (AddBalance_spec ∅ USD 500) as (_ & Hok & _).
  destruct Hok as (_ & _ & Hexact & Hother); [discriminate|].
  destruct (AddBalance_spec ∅ USD 0) as (Hzero & _).
  split; [|split].
  - etrans; [apply Hexact|].
    + rewrite balance_empty. vm_compute. split; discriminate.
    + by rewrite balance_empty.
  - etrans; [apply Hother; discriminate|]. apply balance_empty.
  - eexists. apply Hzero. reflexivity.
Defined.

Lemma int64_ledger_empty : int64_ledger ∅.
Proof. intros c. rewrite balance_empty. vm_compute. split; discriminate. Qed.

(** 200 GEL are credited and withdrawn again. *)
Lemma credit_then_withdraw_witness :
  let credited := fst (AddBalance ∅ GEL 200) in
  Parse upper_ascii "gel" = (GEL, None) /\
  snd (Withdraw upper_ascii credited "gel" 200) = None /\
  balance (fst (Withdraw upper_ascii credited "gel" 200)) GEL = 0.
Proof.
  intros credited.
  assert (Hparse : Parse upper_ascii "gel" = (GEL, None)) by reflexivity.
  assert (Hnonneg : 0 <= balance ∅ GEL) by (rewrite balance_empty; discriminate).
  assert (Hpos : 0 < 200) by reflexivity.
  assert (Hfit : balance ∅ GEL + 200 <= int64_max)
    by (rewrite balance_empty; vm_compute; discriminate).
  destruct (credit_then_withdraw upper_ascii ∅ "gel" GEL 200
              Hparse int64_ledger_empty Hnonneg Hpos Hfit) as (_ & Hw & Hsame).
  split; [exact Hparse|]. split; [exact Hw|].
  etrans; [apply Hsame|apply balance_empty].
Defined.

(** Lower-case "usd" parses to USD, which parses to itself; "jpy" does not. *)
Lemma Parse_spec_witness :
  Parse upper_ascii (fst (Parse upper_ascii "usd")) = (USD, None) /\
  Parse upper_ascii "jpy" = (EmptyString, Some "unsupported currency 'jpy'").
Proof.
  split.
  - destruct (Parse_spec upper_ascii "usd") as (_ & Hok & _).
    destruct Hok as (_ & _ & Hagain); [reflexivity|].
    etrans; [apply Hagain; reflexivity|reflexivity].
  - destruct (Parse_spec upper_ascii "jpy") as (_ & _ & Herr).
    etrans; [apply Herr; vm_compute; discriminate|reflexivity].
Defined.

(** A withdrawal of GEL leaves EUR alone; one of "jpy" changes nothing. *)
Lemma Withdraw_frame_witness :
  let ledger : gmap Currency Z := <[GEL := 200]> (<[EUR := 50]> ∅) in
  balance (fst (Withdraw upper_ascii ledger "gel" 100)) EUR = 50 /\
  (exists msg, Withdraw upper_ascii ledger "jpy" 100
               = (ledger, Some {| Code := InvalidArgument; Message := msg |})).
Proof.
  intros ledger. split.
  - destruct (Withdraw_frame upper_ascii ledger "gel" 100) as (Hother & _).
    etrans; [apply Hother; vm_compute; discriminate|]. reflexivity.
  - destruct (Withdraw_frame upper_ascii ledger "jpy" 100) as (_ & _ & _ & Hbad & _).
    apply Hbad. vm_compute. discriminate.
Defined.

(** An empty ledger reads as zero EUR; a key "JPY" is not reported. *)
Lemma GetBalances_spec_witness :
  GetBalances ∅ !! EUR = Some 0 /\
  GetBalances (<["JPY" := 7]> ∅) !! "JPY" = None.
Proof.
  split.
  - destruct (GetBalances_spec ∅) as (_ & _ & Hzero & _).
    apply Hzero; [reflexivity|]. right. left.
  - destruct (GetBalances_spec (<["JPY" := 7]> ∅)) as (_ & Hhidden & _).
    apply Hhidden. intros Hin.
    repeat (apply elem_of_cons in Hin as [Hin|Hin]; [discriminate|]). inversion Hin.
Defined.

(** The add-item request of the handler tests, on a fresh bill. *)
Lemma handler_AddItem_sound_witness :
  let req := Service.mkAddItemRequest "item-1" "Test Item" 100 in
  let r := Service.AddItem trim_ascii req (Snapshot (new_bill "b" USD)) None in
  fst r = None /\
  exists li, snd r = Some (SigAddLineItem li) /\ 0 < LineItem.Amount li /\
             snd (AddItem (new_bill "b" USD) li) = None.
Proof.
  intros req r.
  destruct (handler_AddItem_sound trim_ascii req (Snapshot (new_bill "b" USD)) None)
    as (_ & Hsend).
  assert (H : snd r = Some (SigAddLineItem (LineItem.mk "item-1" "Test Item" 100 ItemPending)))
    by reflexivity.
  destruct (Hsend _ H) as (snap & li & [= <-] & [= <-] & _ & Hpos & _ & _ & Hok & _).
  split; [reflexivity|]. eexists. split; [exact H|]. split; [exact Hpos|exact Hok].
Defined.

(** A charge request on a bill with one Pending item. *)
Lemma handler_ChargeBill_sound_witness :
  let b := fst (AddItem (new_bill "b" USD) (item "item-1" "Subscription" 200)) in
  let r := Service.ChargeBill (Snapshot b) None (Snapshot (Bill.with_status b BillCharging)) in
  snd r = Some SigChargeBill /\
  BeginCharge b = (Bill.with_status b BillCharging, None) /\
  fst (fst r) = Some (Bill.with_status b BillCharging).
Proof.
  intros b r.
  destruct (handler_ChargeBill_sound (Snapshot b) None
              (Snapshot (Bill.with_status b BillCharging))) as (Hret & Hsend).
  assert (H : snd r = Some SigChargeBill) by reflexivity.
  destruct (Hsend _ H) as (_ & snap & [= <-] & _ & _ & Hbegin & _).
  split; [exact H|]. split; [exact Hbegin|].
  apply Hret. repeat split; reflexivity.
Defined.

(** A cancel request on a bill with one Pending item. *)
Lemma handler_CancelBill_sound_witness :
  let b := fst (AddItem (new_bill "b" USD) (item "x1" "Book" 1500)) in
  let r := Service.CancelBill (Snapshot b) None (Snapshot (fst (Cancel b))) in
  snd r = Some SigCancelBill /\
  snd (Cancel b) = None /\
  fst (fst r) = Some (fst (Cancel b)).
Proof.
  intros b r.
  destruct (handler_CancelBill_sound (Snapshot b) None (Snapshot (fst (Cancel b))))
    as (Hret & Hsend).
  assert (H : snd r = Some SigCancelBill) by reflexivity.
  destruct (Hsend _ H) as (_ & snap & [= <-] & _ & Hcancel & _).
  split; [exact H|]. split; [exact Hcancel|].
  apply Hret. repeat split; reflexivity.
Defined.
